(** * A shallow embedding of the scraper core of [app.py]

    The development models the three functions that carry the decision
    logic of the application,

    - [clean_text] and [get_structured_data] (the context classifier),
    - [find_relevant_links] (the link relevance filter),
    - [scrape_logic] (the two-phase crawl orchestrator),

    over a small model of the parse tree that BeautifulSoup hands to them.

    Conventions.
    - Python [str] values are [string]s; the case mapping [lower] and the
      white-space class act on the ASCII range, every other character is
      caseless and is not white space.
    - Python integers are [Z].
    - A parsed document is the list of children of the [BeautifulSoup]
      object; its nodes are tags and ordinary text nodes (comments,
      doctypes and the special strings of script-like containers are not
      part of the model).
    - The collaborators that live outside the file (the HTTP client, the
      HTML parser, [urljoin], [urlparse] and the iteration order of a
      Python [set]) are Section variables; a raised exception is [None]. *)

From Stdlib Require Import ZArith Ascii.
From Stdlib Require String.
From stdpp Require Import base option list gmap strings.

Local Open Scope Z_scope.

(** ** Python string primitives *)

Module Py.

(** [str.isspace] on one character: TAB, LF, VT, FF, CR, the four
    separators FS, GS, RS, US and the space. *)
Definition isspace (c : ascii) : bool :=
  let n := N_of_ascii c in
  (((9 <=? n) && (n <=? 13)) || ((28 <=? n) && (n <=? 32)))%N.

Definition lower_char (c : ascii) : ascii :=
  let n := N_of_ascii c in
  if ((65 <=? n) && (n <=? 90))%N then ascii_of_N (n + 32) else c.

(** [s.lower()] on ASCII text: the letters A to Z are folded and every
    other character is kept. Outside the ASCII range [str.lower] folds
    further characters and can change the length of a text; a statement
    that rests on the indices of a lowered text is made for ASCII text. *)
Fixpoint lower (s : string) : string :=
  match s with
  | EmptyString => EmptyString
  | String c s' => String (lower_char c) (lower s')
  end.

(** [len(s)] *)
Definition len (s : string) : Z := Z.of_nat (String.length s).

(** [s.find(sub)]: lowest index of an occurrence, [-1] when there is
    none. *)
Definition find (s sub : string) : Z :=
  match String.index 0 sub s with
  | Some n => Z.of_nat n
  | None => -1
  end.

(** [sub in s] *)
Definition contains (sub s : string) : bool :=
  bool_decide (is_Some (String.index 0 sub s)).

(** One bound of a slice, as Python normalises it: a negative bound
    counts from the end, and every bound is clipped to [0 .. len]. *)
Definition clip (n i : Z) : Z :=
  if i <? 0 then Z.max 0 (n + i) else Z.min i n.

(** [s[start:stop]] *)
Definition slice (s : string) (start stop : Z) : string :=
  let n := len s in
  let lo := clip n start in
  let hi := clip n stop in
  String.substring (Z.to_nat lo) (Z.to_nat (hi - lo)) s.

(** [sep.join(l)] *)
Definition join (sep : string) (l : list string) : string :=
  String.concat sep l.

(** [s.lstrip()] *)
Fixpoint lstrip (s : string) : string :=
  match s with
  | EmptyString => EmptyString
  | String c s' => if isspace c then lstrip s' else s
  end.

(** [s.rstrip()] *)
Fixpoint rstrip (s : string) : string :=
  match s with
  | EmptyString => EmptyString
  | String c s' =>
      match rstrip s' with
      | EmptyString => if isspace c then EmptyString else String c EmptyString
      | r => String c r
      end
  end.

(** [s.strip()] *)
Definition strip (s : string) : string := lstrip (rstrip s).

(** [re.sub(r"\s+", " ", s)]: every maximal run of white space becomes
    one space. [in_run] tells that the previous character was white
    space, so that the current run has already been replaced. *)
Fixpoint sub_spaces (in_run : bool) (s : string) : string :=
  match s with
  | EmptyString => EmptyString
  | String c s' =>
      if isspace c
      then (if in_run then sub_spaces true s'
            else String " "%char (sub_spaces true s'))
      else String c (sub_spaces false s')
  end.

(** [re.compile(re.escape(kw), re.IGNORECASE).search(s)]: the escaped
    pattern is the literal keyword, matched without regard to case. On
    ASCII keyword and text this is the containment of the lowered
    keyword in the lowered text; outside the ASCII range the regular
    expression folds further characters. *)
Definition search_ignorecase (kw s : string) : bool :=
  contains (lower kw) (lower s).

End Py.

(** ** The text normaliser *)

(** [clean_text], line 68 *)
Definition clean_text (text : string) : string :=
  Py.strip (Py.sub_spaces false text).

(** ** The parse tree and the navigation that the program uses *)

Module Bs4.

(** A node of the parsed document. *)
#[warnings="-register-all"]
Inductive node : Type :=
| NavigableString (s : string)
| Tag (tag_name : string) (tag_attrs : list (string * string))
      (tag_contents : list node).

(** A tag seen from inside the tree: its own data and the nodes that
    follow it under the same parent. *)
Record element : Type := Element {
  name : string;
  attrs : list (string * string);
  contents : list node;
  next_siblings : list node
}.

(** A text node seen from inside the tree: [parents] are the tags that
    enclose it, the nearest first; the [BeautifulSoup] object itself,
    which encloses everything, is not listed. *)
Record located : Type := Located {
  text : string;
  parents : list element
}.

(** The [BeautifulSoup] object as a tag: it is named "[document]" and
    has neither parent nor siblings. *)
Definition document (soup : list node) : element :=
  Element "[document]" [] soup [].

Section Siblings.
Context {A : Type} (f : node → list node → list A).

(** Visit the children of one parent in order, each with the
    siblings that follow it. *)
Fixpoint each_child (l : list node) : list A :=
  match l with
  | [] => []
  | c :: l' => f c l' ++ each_child l'
  end.
End Siblings.

(** The text nodes at and below [n], in document order, with their
    enclosing tags. *)
Fixpoint strings_of (ups : list element) (n : node) (next : list node)
    : list located :=
  match n with
  | NavigableString s => [Located s ups]
  | Tag nm a cs => each_child (strings_of (Element nm a cs next :: ups)) cs
  end.

(** The tags at and below [n], in document order. *)
Fixpoint tags_of (n : node) (next : list node) : list element :=
  match n with
  | NavigableString _ => []
  | Tag nm a cs => Element nm a cs next :: each_child tags_of cs
  end.

(** The strings that [get_text] collects below a node. *)
Fixpoint all_strings (n : node) : list string :=
  match n with
  | NavigableString s => [s]
  | Tag _ _ cs => flat_map all_strings cs
  end.

(** [tag.get_text(separator)] *)
Definition get_text (separator : string) (e : element) : string :=
  Py.join separator (flat_map all_strings (contents e)).

(** [tag.get_text(separator, strip=True)]: every string is stripped and
    the empty ones are left out. *)
Definition get_text_strip (separator : string) (e : element) : string :=
  Py.join separator
    (filter (λ s, s ≠ EmptyString)
       (Py.strip <$> flat_map all_strings (contents e))).

(** [soup.find_all(string=re.compile(re.escape(kw), re.IGNORECASE))],
    over the ordinary text nodes, which are the nodes of the tree model.
    The search of the program also returns comments and other special
    strings, which [get_text] does not collect; a statement that needs
    the matched string inside the text of a tag says so. *)
Definition find_all_string (soup : list node) (kw : string) : list located :=
  filter (λ m, Is_true (Py.search_ignorecase kw (text m)))
    (each_child (strings_of []) soup).

(** [tag.find_all(names)]: the tags below [e] with one of the names. *)
Definition find_all (names : list string) (e : element) : list element :=
  filter (λ t, name t ∈ names) (each_child tags_of (contents e)).

(** [tag[key]], where the tag has the attribute. *)
Fixpoint get_attr (key : string) (l : list (string * string)) : option string :=
  match l with
  | [] => None
  | (k, v) :: l' => if bool_decide (k = key) then Some v else get_attr key l'
  end.

(** [element.find_parent(nm)]: [ups] are the parents of the element, the
    nearest first; the element itself is not searched. *)
Fixpoint find_parent (nm : string) (ups : list element) : option element :=
  match ups with
  | [] => None
  | p :: ups' => if bool_decide (name p = nm) then Some p else find_parent nm ups'
  end.

(** [element.find_next_sibling()]: the next sibling that is a tag. *)
Fixpoint first_tag (l : list node) : option element :=
  match l with
  | [] => None
  | NavigableString _ :: l' => first_tag l'
  | Tag nm a cs :: l' => Some (Element nm a cs l')
  end.

Definition find_next_sibling (e : element) : option element :=
  first_tag (next_siblings e).

(** [for tag in soup(names): tag.decompose()]: every tag with one of the
    names leaves the tree together with all that it contains. *)
Fixpoint decompose (names : list string) (n : node) : list node :=
  match n with
  | NavigableString s => [n]
  | Tag nm a cs =>
      if bool_decide (nm ∈ names) then []
      else [Tag nm a (flat_map (decompose names) cs)]
  end.

Definition decompose_all (names : list string) (soup : list node) : list node :=
  flat_map (decompose names) soup.

End Bs4.

Import Bs4.

(** ** The context classifier *)

(** The four labels that the classifier writes into the "type" field. *)
Inductive ContextType : Type :=
| TableRow
| SectionHeader
| ListItem
| TextBlock.

Global Instance ContextType_eq_dec : EqDecision ContextType.
Proof. solve_decision. Defined.

(** The label as the program spells it. *)
Definition type_name (t : ContextType) : string :=
  match t with
  | TableRow => "Table Row"
  | SectionHeader => "Section Header"
  | ListItem => "List Item"
  | TextBlock => "Text Block"
  end.

(** One result dictionary. The classifier fills the first three keys, the
    orchestrator sets "url" afterwards. *)
Record item : Type := Item {
  keyword : string;
  context : string;
  type : ContextType;
  url : option string
}.

Global Instance item_eq_dec : EqDecision item.
Proof. solve_decision. Defined.

(** The tag names of the second rule, lines 90-100. *)
Definition header_names : list string :=
  ["dt"; "b"; "strong"; "h1"; "h2"; "h3"; "h4"; "h5"; "h6"].

(** The tag names that end the upward walk of the fourth rule. *)
Definition block_names : list string := ["p"; "div"; "article"].

(** The walk of lines 119-127: [ups] are the parents of [container], the
    nearest first. *)
Fixpoint climb (container : element) (ups : list element) : element :=
  match ups with
  | [] => container
  | parent :: ups' =>
      if bool_decide (name container ∈ block_names) then container
      else if bool_decide (name parent = "body") then parent
      else climb parent ups'
  end.

(** The fourth rule, lines 118-135. *)
Definition text_block (kw : string) (element : element) (ups : list Bs4.element)
    : string :=
  let container := climb element ups in
  let block_text := clean_text (get_text " " container) in
  if 300 <? Py.len block_text then
    let start_idx := Py.find (Py.lower block_text) (Py.lower kw) in
    let start := Z.max 0 (start_idx - 50) in
    let end_ := Z.min (Py.len block_text) (start_idx + 150) in
    "..." +:+ Py.slice block_text start end_ +:+ "..."
  else block_text.

(** The first rule, lines 83-87. *)
Definition table_row (tr : element) : string :=
  let cells := (λ td, clean_text (get_text "" td)) <$> find_all ["td"; "th"] tr in
  Py.join " | " cells.

(** The second rule, lines 101-108: [parent] is the parent of [element]. *)
Definition section_header (element parent : element) : string :=
  let header := clean_text (get_text "" element) in
  let value :=
    match find_next_sibling element with
    | Some next_node => clean_text (get_text "" next_node)
    | None => ""
    end in
  if bool_decide (value ≠ "") then header +:+ ": " +:+ value
  else clean_text (get_text "" parent).

(** The body of the loop over the matches up to line 135: the snippet and
    its label for one match.

    [match.parent] is the first of [parents m], or the document itself
    when the text node is a child of the [BeautifulSoup] object. In the
    latter case no rule but the last can apply: the document has no
    parent to find, and its name is no header name. *)
Definition classify (soup : list node) (kw : string) (m : located)
    : string * ContextType :=
  match parents m with
  | [] => (text_block kw (document soup) [], TextBlock)
  | element :: above =>
      let ups := above ++ [document soup] in
      match find_parent "tr" ups with
      | Some tr => (table_row tr, TableRow)
      | None =>
          if bool_decide (name element ∈ header_names) then
            let parent :=
              match above with p :: _ => p | [] => document soup end in
            (section_header element parent, SectionHeader)
          else
            match find_parent "li" ups with
            | Some li => (clean_text (get_text " " li), ListItem)
            | None => (text_block kw element ups, TextBlock)
            end
      end
  end.

(** The test of line 137. *)
Definition rejected (block_text : string) : bool :=
  (Py.len block_text <? 3) || Py.contains "copyright" (Py.lower block_text).

(** One turn of the loop over the matches, lines 79-144, on the two
    objects that it updates. *)
Definition visit_match (soup : list node) (kw : string)
    (st : list item * gset string) (m : located) : list item * gset string :=
  let '(results, seen_blocks) := st in
  let '(block_text, context_type) := classify soup kw m in
  if rejected block_text then st
  else if bool_decide (block_text ∈ seen_blocks) then st
  else (results ++ [Item kw block_text context_type None],
        {[block_text]} ∪ seen_blocks).

(** One turn of the loop over the keywords, lines 74-144: the set of
    seen snippets starts empty. *)
Definition visit_keyword (soup : list node) (results : list item) (kw : string)
    : list item :=
  let matches := find_all_string soup kw in
  (foldl (visit_match soup kw) (results, ∅) matches).1.

(** [get_structured_data], lines 72-145 *)
Definition get_structured_data (soup : list node) (keywords : list string)
    : list item :=
  foldl (visit_keyword soup) [] keywords.

(** ** The link relevance filter and the orchestrator *)

(** What the program reads of a [requests] response, and what it does
    not. *)
Record response : Type := Response {
  status_code : Z;
  body : string
}.

(** What a run does to the outside, in order: the status lines, the
    requests and the pauses. The progress bar is left out. *)
Inductive event : Type :=
| InfoPhase1 (base_url : string)
| InfoPhase2 (total_links : nat)
| Scanning (link : string)
| WarningNoLinks
| Get (address : string) (timeout : Z)
| Sleep
| ErrorMessage.

(** The five tag names that line 179 removes and the four of line 215. *)
Definition noise_home : list string :=
  ["script"; "style"; "nav"; "footer"; "noscript"].

Definition noise_sub : list string :=
  ["script"; "style"; "nav"; "footer"].

(** [item["url"] = address] *)
Definition set_url (address : string) (it : item) : item :=
  Item (keyword it) (context it) (type it) (Some address).

Section Collaborators.

(** [urljoin(base, href)] and [urlparse(u).netloc]. *)
Variable urljoin : string → string → option string.
Variable netloc : string → option string.

(** [requests.get(address, headers=HEADERS, timeout=t)] and
    [BeautifulSoup(markup, "html.parser")]. *)
Variable requests_get : string → Z → option response.
Variable BeautifulSoup : string → option (list node).

(** The order in which a [for] loop meets the members of a set. *)
Variable set_order : gset string → list string.

(** The loop over the keywords of lines 157-160, for one link. *)
Fixpoint mentions (keywords : list string) (text href : string) : bool :=
  match keywords with
  | [] => false
  | kw :: keywords' =>
      if Py.contains (Py.lower kw) text || Py.contains (Py.lower kw) (Py.lower href)
      then true
      else mentions keywords' text href
  end.

(** One turn of the loop over the anchors, lines 151-160. *)
Definition visit_link (base_url domain : string) (keywords : list string)
    (relevant_links : gset string) (link : element) : option (gset string) :=
  href ← get_attr "href" (attrs link);
  let text := Py.lower (get_text_strip " " link) in
  full_url ← urljoin base_url href;
  there ← netloc full_url;
  if bool_decide (there ≠ domain) then Some relevant_links
  else if mentions keywords text href then Some ({[full_url]} ∪ relevant_links)
  else Some relevant_links.

(** [soup.find_all("a", href=True)] *)
Definition anchors (soup : list node) : list element :=
  filter (λ t, is_Some (get_attr "href" (attrs t)))
    (find_all ["a"] (document soup)).

(** [find_relevant_links], lines 148-161 *)
Definition find_relevant_links (base_url : string) (soup : list node)
    (keywords : list string) : option (gset string) :=
  domain ← netloc base_url;
  foldl (λ acc link, acc ≫= λ relevant_links,
           visit_link base_url domain keywords relevant_links link)
    (Some ∅) (anchors soup).

(** The [try] block of Phase 1, lines 175-188: the records of the home
    page and the links to follow. *)
Definition phase1 (base_url : string) (keywords_list : list string)
    : option (list item * gset string) :=
  response ← requests_get base_url 15;
  soup ← BeautifulSoup (body response);
  let soup := decompose_all noise_home soup in
  let home_data := get_structured_data soup keywords_list in
  child_links ← find_relevant_links base_url soup keywords_list;
  Some (set_url base_url <$> home_data, child_links).

(** The [try] block of Phase 2, lines 213-221; [None] is the [except]
    branch. *)
Definition sub_page (link : string) (keywords_list : list string)
    : option (list item) :=
  resp ← requests_get link 10;
  sub_soup ← BeautifulSoup (body resp);
  let sub_soup := decompose_all noise_sub sub_soup in
  let page_data := get_structured_data sub_soup keywords_list in
  Some (set_url link <$> page_data).

(** The state of the run: the records, the visited addresses, and what
    has happened so far. *)
Record run : Type := Run {
  all_data : list item;
  visited_urls : gset string;
  trace : list event
}.

(** One turn of the loop of Phase 2, lines 202-225. *)
Definition visit_page (keywords_list : list string) (r : run) (link : string)
    : run :=
  if bool_decide (link ∈ visited_urls r) then r
  else
    let happened := trace r ++ [Scanning link; Sleep; Get link 10] in
    let found := default [] (sub_page link keywords_list) in
    Run (all_data r ++ found) ({[link]} ∪ visited_urls r) happened.

(** [scrape_logic], lines 164-231: the returned list and the trace. *)
Definition scrape_logic (base_url : string) (keywords_list : list string)
    : list item * list event :=
  let happened := [InfoPhase1 base_url; Get base_url 15] in
  match phase1 base_url keywords_list with
  | None => ([], happened ++ [ErrorMessage])
  | Some (home_data, child_links) =>
      let r := Run home_data {[base_url]} happened in
      if bool_decide (child_links ≠ ∅) then
        let r := Run (all_data r) (visited_urls r)
                   (trace r ++ [InfoPhase2 (size child_links)]) in
        let r := foldl (visit_page keywords_list) r (set_order child_links) in
        (all_data r, trace r)
      else (all_data r, trace r ++ [WarningNoLinks])
  end.

End Collaborators.

(** ** Vocabulary of the statements *)

(** [match.parent], line 80. *)
Definition match_parent (soup : list node) (m : located) : element :=
  match parents m with
  | element :: _ => element
  | [] => document soup
  end.

(** Everything that encloses the text node of a match, the nearest
    first: the containing element, its parents, the document. *)
Definition enclosing (soup : list node) (m : located) : list element :=
  parents m ++ [document soup].

(** The parents of the containing element: what [find_parent] searches
    when it starts from [match.parent]. *)
Definition strictly_enclosing (soup : list node) (m : located) : list element :=
  tail (enclosing soup m).


(** The containing element of the match lies inside a tag named [nm]. *)
Definition parent_lies_inside (soup : list node) (m : located) (nm : string)
    : Prop :=
  ∃ a, a ∈ strictly_enclosing soup m ∧ name a = nm.



(** The container whose text the fourth rule takes. *)
Definition block_container (soup : list node) (m : located) : element :=
  climb (match_parent soup m) (strictly_enclosing soup m).

(** The records that the loop over the matches appends, as a function of
    the set of snippets seen before. *)
Fixpoint emitted (soup : list node) (kw : string) (seen_blocks : gset string)
    (matches : list located) : list item :=
  match matches with
  | [] => []
  | m :: matches' =>
      let '(block_text, context_type) := classify soup kw m in
      if rejected block_text || bool_decide (block_text ∈ seen_blocks)
      then emitted soup kw seen_blocks matches'
      else Item kw block_text context_type None
             :: emitted soup kw ({[block_text]} ∪ seen_blocks) matches'
  end.

(** The addresses that a run has requested, in order. *)
Fixpoint requested (happened : list event) : list string :=
  match happened with
  | [] => []
  | Get address _ :: rest => address :: requested rest
  | _ :: rest => requested rest
  end.

(** What one turn of the loop of Phase 2 adds to the records and to the
    trace, given the addresses visited before the loop. *)
Definition page_records (requests_get : string → Z → option response)
    (BeautifulSoup : string → option (list node))
    (keywords_list : list string) (visited : gset string) (link : string)
    : list item :=
  if bool_decide (link ∈ visited) then []
  else default [] (sub_page requests_get BeautifulSoup link keywords_list).

Definition page_events (visited : gset string) (link : string) : list event :=
  if bool_decide (link ∈ visited) then []
  else [Scanning link; Sleep; Get link 10].

(** Whether the first character of a string is white space. *)
Definition starts_with_space (s : string) : bool :=
  match s with
  | "" => false
  | String c _ => Py.isspace c
  end.

(** Whether the last character is white space; [r] answers for the empty
    string. *)
Fixpoint ends_with_space (r : bool) (s : string) : bool :=
  match s with
  | "" => r
  | String c s' => ends_with_space (Py.isspace c) s'
  end.



(** ** Documents and a small web for the examples *)

Module Examples.

(** [s * n] *)
Fixpoint times (s : string) (n : nat) : string :=
  match n with
  | O => ""
  | S n' => s +:+ times s n'
  end.

(** The [i]-th match of a keyword in a document. *)
Definition nth_match (soup : list node) (kw : string) (i : nat) : located :=
  default (Located "" []) (find_all_string soup kw !! i).



(** <div><b>Fee</b> <span> 100  rs </span></div> *)
Definition bold_with_value : list node :=
  [Tag "div" [] [Tag "b" [] [NavigableString "Fee"]; NavigableString " ";
                 Tag "span" [] [NavigableString " 100  rs "]]].

(** <div><b>Fee</b><br>100</div> *)
Definition bold_with_break : list node :=
  [Tag "div" [] [Tag "b" [] [NavigableString "Fee"]; Tag "br" [] [];
                 NavigableString "100"]].

(** <p>annual <i>fee</i> and fee again</p> *)
Definition two_nodes : list node :=
  [Tag "p" [] [NavigableString "annual "; Tag "i" [] [NavigableString "fee"];
               NavigableString " and fee again"]].




(** A paragraph of 311 characters that starts with "annual", two
    spaces and "fee". *)
Definition spaced_paragraph : list node :=
  [Tag "p" [] [NavigableString ("annual  fee" +:+ times "z" 300)]].

(** The examples use absolute addresses only; [urljoin] returns an
    absolute href as it is. *)
Definition urljoin (base href : string) : option string := Some href.

Fixpoint until_delimiter (s : string) : string :=
  match s with
  | "" => ""
  | String c s' =>
      if bool_decide (c ∈ ["/"; "?"; "#"]%char) then ""
      else String c (until_delimiter s')
  end.

(** [urlparse(u).netloc] on the addresses of the examples, which all
    start with "http://". *)
Definition netloc (u : string) : option string :=
  if String.prefix "http://" u
  then Some (until_delimiter (String.substring 7 (String.length u) u))
  else Some "".

Definition seed : string := "http://bank.example/".

(** The home page: three links into the site, one out of it, and a
    [noscript] block. *)
Definition home_page : list node :=
  [Tag "p" [] [NavigableString "Card fee table"];
   Tag "a" [("href", "http://bank.example/fees")] [NavigableString "Fees"];
   Tag "a" [("href", "http://bank.example/gone")] [NavigableString "Old fee list"];
   Tag "a" [("href", "http://bank.example/cards")] [NavigableString "Card fee"];
   Tag "a" [("href", "http://other.example/fees")] [NavigableString "Fees elsewhere"];
   Tag "noscript" [] [Tag "p" [] [NavigableString "hidden fee"]]].

Definition fees_page : list node :=
  [Tag "h2" [] [NavigableString "Joining fee"];
   Tag "p" [] [NavigableString "500 per year"];
   Tag "noscript" [] [Tag "p" [] [NavigableString "hidden fee"]]].

Definition cards_page : list node :=
  [Tag "ul" [] [Tag "li" [] [Tag "span" [] [NavigableString "No fee card"]]]].

(** The parser, on the three bodies that the examples serve. *)
Definition parse (markup : string) : option (list node) :=
  if bool_decide (markup = "home") then Some home_page
  else if bool_decide (markup = "fees") then Some fees_page
  else if bool_decide (markup = "cards") then Some cards_page
  else None.

(** The site: the request for "/gone" fails; [fees_status] is the
    status code that comes with the fees page. *)
Definition site (fees_status : Z) (address : string) (timeout : Z)
    : option response :=
  if bool_decide (address = seed) then Some (Response 200 "home")
  else if bool_decide (address = "http://bank.example/fees")
    then Some (Response fees_status "fees")
  else if bool_decide (address = "http://bank.example/cards")
    then Some (Response 200 "cards")
  else None.

(** A site whose home page cannot be fetched. *)
Definition down (address : string) (timeout : Z) : option response := None.

(** A site where the fees page is the seed. *)
Definition fees_first (address : string) (timeout : Z) : option response :=
  if bool_decide (address = "http://bank.example/fees")
  then Some (Response 200 "fees") else None.

End Examples.

(** ** The caller: the keyword field and the rows of the export *)

(** [s.split(",")], as the piece before the first comma and the pieces
    after it. *)
Fixpoint split_comma (s : string) : string * list string :=
  match s with
  | "" => ("", [])
  | String c s' =>
      let '(piece, pieces) := split_comma s' in
      if bool_decide (c = ","%char) then ("", piece :: pieces)
      else (String c piece, pieces)
  end.

Definition split_commas (s : string) : list string :=
  let '(piece, pieces) := split_comma s in piece :: pieces.

(** The list of keywords of line 267:
    [[k.strip() for k in keywords_input.split(",") if k.strip()]]. *)
Definition parse_keywords (keywords_input : string) : list string :=
  filter (λ k, k ≠ "") (Py.strip <$> split_commas keywords_input).

(** The test of line 264: [not url_input or not keywords_input]. *)
Definition input_missing (url_input keywords_input : string) : bool :=
  bool_decide (url_input = "") || bool_decide (keywords_input = "").

(** One row of the export, lines 314-322; [r["url"]] raises when the key
    is not set. *)
Definition export_row (timestamp : string) (r : item) : option (list string) :=
  address ← url r;
  Some [address; keyword r; context r; type_name (type r); timestamp].

(** The loop of lines 313-322. *)
Definition export_rows (timestamp : string) (results : list item)
    : option (list (list string)) :=
  mapM (export_row timestamp) results.


(** A text node as the classifier can tell it from others: its text and
    the names of the tags around it. *)
Definition trail (m : located) : string * list string :=
  (text m, name <$> parents m).

(** Whether a character of the keyword field separates or pads. *)
Definition blank_or_comma (c : ascii) : bool :=
  Py.isspace c || bool_decide (c = ","%char).

(** Every character of a string passes a test. *)
Fixpoint all_chars (p : ascii → bool) (s : string) : bool :=
  match s with
  | "" => true
  | String c s' => p c && all_chars p s'
  end.

(** Any character but the comma. *)
Definition not_comma (c : ascii) : bool := negb (bool_decide (c = ","%char)).

(** The trails of the text nodes at and below a node, in document order;
    [ups] are the names of the tags around the node, the nearest first. *)
Fixpoint trails (ups : list string) (n : node) : list (string * list string) :=
  match n with
  | NavigableString s => [(s, ups)]
  | Tag nm _ cs => flat_map (trails (nm :: ups)) cs
  end.

(** ** A site with a link that cannot be resolved *)

Module MoreExamples.

(** [urljoin] on absolute addresses, with the one failure that the
    examples need: an opening bracket without its closing bracket in
    the network location is refused ("Invalid IPv6 URL"). *)
Definition urljoin (base href : string) : option string :=
  if Py.contains "[" href && negb (Py.contains "]" href) then None
  else Some href.

(** A home page with a record and one anchor whose href is refused. *)
Definition broken_page : list node :=
  [Tag "p" [] [NavigableString "Card fee table"];
   Tag "a" [("href", "http://[bank.example/fees")] [NavigableString "Fees"]].

Definition parse (markup : string) : option (list node) :=
  if bool_decide (markup = "broken") then Some broken_page else None.

Definition site (address : string) (timeout : Z) : option response :=
  if bool_decide (address = Examples.seed) then Some (Response 200 "broken")
  else None.

End MoreExamples.

(** ** Facts about the string primitives *)

Lemma app_cons c s t : String c s +:+ t = String c (s +:+ t).
Proof. reflexivity. Qed.

Lemma prefix_app p s : String.prefix p s = true ↔ ∃ b, s = p +:+ b.
Proof.
  revert s. induction p as [|c p IH]; intros s.
  - destruct s; simpl; split; eauto.
  - destruct s as [|d s]; simpl.
    + split; [done|]. intros [b Hb]. discriminate.
    + destruct (ascii_dec c d) as [->|Hne].
      * rewrite IH. split; intros [b Hb]; exists b.
        -- by rewrite app_cons, Hb.
        -- rewrite app_cons in Hb. congruence.
      * split; [done|]. intros [b Hb]. rewrite app_cons in Hb. congruence.
Qed.

Lemma app_nil_inv a b : a +:+ b = "" → a = "" ∧ b = "".
Proof.
  destruct a; [intros H; split; [done|exact H]|].
  rewrite app_cons. intros H. discriminate.
Qed.

Lemma index_cons sub c s :
  String.index 0 sub (String c s) =
  if String.prefix sub (String c s) then Some 0%nat
  else S <$> String.index 0 sub s.
Proof. by destruct sub. Qed.

Lemma index_None sub s a b :
  String.index 0 sub s = None → s ≠ a +:+ sub +:+ b.
Proof.
  revert a. induction s as [|c s IH]; intros a Hi H.
  - symmetry in H. apply app_nil_inv in H as [-> H]. apply app_nil_inv in H as [-> _].
    done.
  - rewrite index_cons in Hi. destruct (String.prefix sub (String c s)) eqn:Hp; [done|].
    destruct (String.index 0 sub s) eqn:Hs; [done|].
    destruct a as [|d a].
    + assert (String.prefix sub (String c s) = true); [|congruence].
      apply prefix_app. eauto.
    + rewrite app_cons in H. injection H as -> H. by eapply IH.
Qed.

Lemma index_Some sub s n :
  String.index 0 sub s = Some n →
  ∃ a b, s = a +:+ sub +:+ b ∧ String.length a = n.
Proof.
  revert n. induction s as [|c s IH]; intros n Hi.
  - simpl in Hi. destruct sub; [|done]. injection Hi as <-. by exists "", "".
  - rewrite index_cons in Hi. destruct (String.prefix sub (String c s)) eqn:Hp.
    + injection Hi as <-. apply prefix_app in Hp as [b Hb]. by exists "", b.
    + destruct (String.index 0 sub s) as [k|] eqn:Hs; [|done].
      injection Hi as <-. destruct (IH k eq_refl) as (a & b & -> & <-).
      by exists (String c a), b.
Qed.


Lemma contains_true sub s :
  Py.contains sub s = true ↔ ∃ a b, s = a +:+ sub +:+ b.
Proof.
  unfold Py.contains. rewrite bool_decide_eq_true. split.
  - intros [n Hn]. apply index_Some in Hn as (a & b & ? & _). eauto.
  - intros (a & b & H). destruct (String.index 0 sub s) eqn:Hi; [eauto|].
    by destruct (index_None _ _ a b Hi).
Qed.

Lemma contains_false sub s a b :
  Py.contains sub s = false → s ≠ a +:+ sub +:+ b.
Proof.
  intros Hc H. assert (Py.contains sub s = true); [|congruence].
  apply contains_true. eauto.
Qed.


(** ** The loop of the classifier *)

Section Classifier.
Context (soup : list node).

Lemma foldl_visit_match kw ms results seen :
  (foldl (visit_match soup kw) (results, seen) ms).1
  = results ++ emitted soup kw seen ms.
Proof.
  revert results seen. induction ms as [|m ms IH]; intros results seen; simpl.
  { by rewrite app_nil_r. }
  destruct (classify soup kw m) as [s t] eqn:Hc.
  destruct (rejected s); simpl; [done|].
  case_bool_decide; simpl; [done|].
  by rewrite IH, <- app_assoc.
Qed.

Lemma visit_keyword_emitted results kw :
  visit_keyword soup results kw
  = results ++ emitted soup kw ∅ (find_all_string soup kw).
Proof. apply foldl_visit_match. Qed.

Lemma foldl_visit_keyword keywords results :
  foldl (visit_keyword soup) results keywords
  = results ++ (keywords ≫= λ kw, emitted soup kw ∅ (find_all_string soup kw)).
Proof.
  revert results. induction keywords as [|kw kws IH]; intros results; simpl.
  { by rewrite app_nil_r. }
  by rewrite IH, visit_keyword_emitted, <- app_assoc.
Qed.

Lemma get_structured_data_bind keywords :
  get_structured_data soup keywords
  = keywords ≫= λ kw, emitted soup kw ∅ (find_all_string soup kw).
Proof. apply foldl_visit_keyword. Qed.


(** Where a record comes from. *)
Lemma emitted_origin kw seen ms r :
  r ∈ emitted soup kw seen ms →
  ∃ m, m ∈ ms ∧ r = Item kw (classify soup kw m).1 (classify soup kw m).2 None
       ∧ rejected (classify soup kw m).1 = false
       ∧ (classify soup kw m).1 ∉ seen.
Proof.
  revert seen. induction ms as [|m ms IH]; intros seen; simpl.
  { by intros ?%elem_of_nil. }
  destruct (classify soup kw m) as [s t] eqn:Hc.
  destruct (rejected s) eqn:Hr; simpl.
  { intros (m' & ? & ?)%IH. exists m'. split; [by right|done]. }
  case_bool_decide as Hs; simpl.
  { intros (m' & ? & ?)%IH. exists m'. split; [by right|done]. }
  intros [->|Hin]%elem_of_cons.
  - exists m. rewrite Hc. simpl. split; [by left|done].
  - apply IH in Hin as (m' & ? & ? & ? & Hn). exists m'.
    split; [by right|]. split_and!; [done..|]. set_solver.
Qed.

Lemma emitted_fresh kw seen ms r :
  r ∈ emitted soup kw seen ms → context r ∉ seen.
Proof. intros (m & _ & -> & _ & ?)%emitted_origin. done. Qed.

Lemma emitted_NoDup kw seen ms :
  NoDup (context <$> emitted soup kw seen ms).
Proof.
  revert seen. induction ms as [|m ms IH]; intros seen; simpl.
  { constructor. }
  destruct (classify soup kw m) as [s t].
  destruct (rejected s); simpl; [done|].
  case_bool_decide; simpl; [done|].
  constructor; [|done].
  intros (r & Hr & Hin)%list_elem_of_fmap.
  apply emitted_fresh in Hin. simpl in Hr. set_solver.
Qed.


Lemma emitted_keyword kw seen ms r :
  r ∈ emitted soup kw seen ms → keyword r = kw.
Proof. by intros (m & _ & -> & _)%emitted_origin. Qed.

End Classifier.

(** ** The rules of the classifier *)

Lemma find_parent_Some nm ups p :
  find_parent nm ups = Some p → p ∈ ups ∧ name p = nm.
Proof.
  induction ups as [|a ups IH]; simpl; [done|].
  case_bool_decide.
  - intros [= <-]. split; [by left|done].
  - intros [? ?]%IH. split; [by right|done].
Qed.






(** C7 (as amended). For a match whose containing element is a heading,
    definition-term or bold element that does not lie inside a table row,
    the snippet is "<header>: <value>" whenever a next sibling element
    exists and its normalised text <value> is not empty; the normalised
    text of the parent of the header is taken when there is no next
    sibling element or when its normalised text is empty. *)
Theorem section_header_snippet (soup : list node) (kw : string) (m : located)
    (element : element) (above : list Bs4.element) :
  parents m = element :: above →
  name element ∈ header_names →
  ¬ parent_lies_inside soup m "tr" →
  let header := clean_text (get_text "" element) in
  let parent := default (document soup) (head above) in
  classify soup kw m =
    (match find_next_sibling element with
     | Some next_node =>
         let value := clean_text (get_text "" next_node) in
         if bool_decide (value = "") then clean_text (get_text "" parent)
         else header +:+ ": " +:+ value
     | None => clean_text (get_text "" parent)
     end, SectionHeader).
Proof.
  intros Hp Hh Hno. unfold classify. rewrite Hp.
  destruct (find_parent "tr" (above ++ [document soup])) as [tr|] eqn:Htr.
  { destruct Hno. apply find_parent_Some in Htr as [? ?]. exists tr.
    unfold strictly_enclosing, enclosing. rewrite Hp. done. }
  rewrite bool_decide_eq_true_2 by done. unfold section_header. simpl.
  assert (match above with p :: _ => p | [] => document soup end
          = default (document soup) (head above)) as -> by by destruct above.
  destruct (find_next_sibling element) as [nx|]; simpl; [|done].
  by repeat case_bool_decide.
Qed.

(** ** The filter and the seen-set *)

Lemma lower_app a b : Py.lower (a +:+ b) = Py.lower a +:+ Py.lower b.
Proof. induction a as [|c a IH]; [done|]. rewrite app_cons. simpl. by rewrite IH. Qed.

Lemma rejected_false s :
  rejected s = false →
  3 ≤ Py.len s ∧ ∀ a w b, s = a +:+ w +:+ b → Py.lower w ≠ "copyright".
Proof.
  unfold rejected. intros [Hlen Hc]%orb_false_iff. split; [lia|].
  intros a w b -> Hw.
  apply (contains_false _ _ (Py.lower a) (Py.lower b)) in Hc.
  by rewrite !lower_app, Hw in Hc.
Qed.

(** C5. Every record that the classifier returns, for any document and
    any list of keywords, has a context of at least 3 characters in which
    "copyright" does not occur in any letter case; a snippet that fails
    either condition therefore never appears in the result. *)
Theorem context_invariant (soup : list node) (keywords : list string) :
  Forall (λ r, 3 ≤ Py.len (context r)
               ∧ ∀ a w b, context r = a +:+ w +:+ b → Py.lower w ≠ "copyright")
    (get_structured_data soup keywords).
Proof.
  apply Forall_forall. intros r Hr.
  rewrite get_structured_data_bind in Hr.
  apply list_elem_of_bind in Hr as (kw & Hr & _).
  apply emitted_origin in Hr as (m & _ & -> & Hok & _).
  by apply rejected_false.
Qed.





(** ** The truncated window *)

Lemma app_assoc_s a b c : (a +:+ b) +:+ c = a +:+ b +:+ c.
Proof. induction a as [|x a IH]; [done|]. by rewrite !app_cons, IH. Qed.

Lemma app_nil_r_s a : a +:+ "" = a.
Proof. induction a as [|x a IH]; [done|]. by rewrite app_cons, IH. Qed.

Lemma length_app_s a b :
  String.length (a +:+ b) = (String.length a + String.length b)%nat.
Proof. induction a as [|x a IH]; [done|]. rewrite app_cons. simpl. by rewrite IH. Qed.

Lemma len_app a b : Py.len (a +:+ b) = Py.len a + Py.len b.
Proof. unfold Py.len. rewrite length_app_s. lia. Qed.








Lemma classify_text_block soup kw m :
  (classify soup kw m).2 = TextBlock →
  (classify soup kw m).1
  = text_block kw (match_parent soup m) (strictly_enclosing soup m).
Proof.
  unfold classify, match_parent, strictly_enclosing, enclosing.
  destruct (parents m) as [|element above]; [done|]. simpl.
  destruct (find_parent "tr" _); [done|].
  case_bool_decide; [done|].
  by destruct (find_parent "li" _).
Qed.


(** ** The normaliser keeps a normalised keyword in place *)

Lemma isspace_lower c : Py.isspace (Py.lower_char c) = Py.isspace c.
Proof. by destruct c as [[] [] [] [] [] [] [] []]. Qed.

Lemma lower_sub_spaces r s :
  Py.lower (Py.sub_spaces r s) = Py.sub_spaces r (Py.lower s).
Proof.
  revert r. induction s as [|c s IH]; intros r; [done|]. simpl.
  rewrite isspace_lower. destruct (Py.isspace c); [destruct r|]; simpl;
    by rewrite ?IH.
Qed.

Lemma lower_lstrip s : Py.lower (Py.lstrip s) = Py.lstrip (Py.lower s).
Proof.
  induction s as [|c s IH]; [done|]. simpl. rewrite isspace_lower.
  by destruct (Py.isspace c).
Qed.

Lemma lower_eq_nil s : Py.lower s = "" ↔ s = "".
Proof. by destruct s. Qed.

Lemma lower_rstrip s : Py.lower (Py.rstrip s) = Py.rstrip (Py.lower s).
Proof.
  induction s as [|c s IH]; [done|]. simpl. rewrite <- IH, isspace_lower.
  destruct (Py.rstrip s); simpl; [by destruct (Py.isspace c)|done].
Qed.

Lemma lower_clean_text s : Py.lower (clean_text s) = clean_text (Py.lower s).
Proof.
  unfold clean_text, Py.strip.
  by rewrite lower_lstrip, lower_rstrip, lower_sub_spaces.
Qed.

(** Lengths never grow. *)
Lemma length_sub_spaces r s :
  (String.length (Py.sub_spaces r s) <= String.length s)%nat.
Proof.
  revert r. induction s as [|c s IH]; intros r; simpl; [done|].
  destruct (Py.isspace c); [destruct r|]; simpl.
  - specialize (IH true). lia.
  - specialize (IH true). lia.
  - specialize (IH false). lia.
Qed.

Lemma length_lstrip s : (String.length (Py.lstrip s) <= String.length s)%nat.
Proof.
  induction s as [|c s IH]; simpl; [done|].
  destruct (Py.isspace c); simpl; lia.
Qed.

Lemma length_rstrip s : (String.length (Py.rstrip s) <= String.length s)%nat.
Proof.
  induction s as [|c s IH]; simpl; [done|].
  destruct (Py.rstrip s); [destruct (Py.isspace c)|]; simpl in *; lia.
Qed.

Lemma lstrip_same_length s :
  String.length (Py.lstrip s) = String.length s → Py.lstrip s = s.
Proof.
  destruct s as [|c s]; simpl; [done|].
  destruct (Py.isspace c); [|done].
  pose proof (length_lstrip s). lia.
Qed.

Lemma rstrip_same_length s :
  String.length (Py.rstrip s) = String.length s → Py.rstrip s = s.
Proof.
  induction s as [|c s IH]; simpl; [done|].
  pose proof (length_rstrip s).
  destruct (Py.rstrip s) eqn:E.
  - destruct (Py.isspace c); simpl; [lia|].
    intros Hl. destruct s; [done|]. simpl in Hl. lia.
  - simpl. intros Hl. f_equal. apply IH. simpl. lia.
Qed.

Lemma lstrip_fixed s : Py.lstrip s = s → starts_with_space s = false.
Proof.
  destruct s as [|c s]; simpl; [done|].
  destruct (Py.isspace c); [|done].
  intros H. pose proof (length_lstrip s) as Hl. rewrite H in Hl. simpl in Hl. lia.
Qed.

Lemma ends_nonempty r r' s :
  s ≠ "" → ends_with_space r s = ends_with_space r' s.
Proof. by destruct s. Qed.

Lemma rstrip_fixed r s :
  Py.rstrip s = s → s ≠ "" → ends_with_space r s = false.
Proof.
  revert r. induction s as [|c s IH]; intros r; [done|]. simpl. intros H _.
  destruct (Py.rstrip s) as [|d t] eqn:E.
  - destruct (Py.isspace c) eqn:Hc; [done|]. injection H as <-. done.
  - injection H as H. apply IH; [done|]. by rewrite <- H.
Qed.

Lemma ends_app r a s :
  ends_with_space r (a +:+ s) = ends_with_space (ends_with_space r a) s.
Proof.
  revert r. induction a as [|c a IH]; intros r; [done|].
  rewrite app_cons. simpl. apply IH.
Qed.

Lemma sub_spaces_app r a s :
  Py.sub_spaces r (a +:+ s)
  = Py.sub_spaces r a +:+ Py.sub_spaces (ends_with_space r a) s.
Proof.
  revert r. induction a as [|c a IH]; intros r; [done|].
  rewrite app_cons. simpl.
  destruct (Py.isspace c); [destruct r|]; by rewrite IH, ?app_cons.
Qed.

Lemma sub_spaces_start r s :
  starts_with_space s = false → Py.sub_spaces r s = Py.sub_spaces false s.
Proof. destruct s as [|c s]; simpl; [done|]. by intros ->. Qed.

Lemma normalised_facts k :
  clean_text k = k → k ≠ "" →
  Py.sub_spaces false k = k
  ∧ starts_with_space k = false
  ∧ ends_with_space false k = false.
Proof.
  unfold clean_text, Py.strip. intros H Hne.
  pose proof (length_sub_spaces false k) as H1.
  pose proof (length_rstrip (Py.sub_spaces false k)) as H2.
  pose proof (length_lstrip (Py.rstrip (Py.sub_spaces false k))) as H3.
  rewrite H in H3.
  assert (Py.rstrip (Py.sub_spaces false k) = Py.sub_spaces false k) as Hr.
  { apply rstrip_same_length. lia. }
  rewrite Hr in H, H3.
  assert (Py.lstrip (Py.sub_spaces false k) = Py.sub_spaces false k) as Hl.
  { apply lstrip_same_length. rewrite H. lia. }
  rewrite Hl in H. rewrite H in Hr, Hl. split_and!; [done| |].
  - by apply lstrip_fixed.
  - by apply rstrip_fixed.
Qed.

Lemma lstrip_app x y :
  starts_with_space y = false → y ≠ "" →
  ∃ x', Py.lstrip (x +:+ y) = x' +:+ y.
Proof.
  intros Hy Hne. induction x as [|c x IH].
  - exists "". destruct y as [|d y]; [done|]. simpl in *. by rewrite Hy.
  - rewrite app_cons. simpl. destruct (Py.isspace c); [done|].
    by exists (String c x).
Qed.

Lemma rstrip_app x y :
  x ≠ "" → ends_with_space false x = false →
  ∃ y', Py.rstrip (x +:+ y) = x +:+ y'.
Proof.
  induction x as [|c x IH]; intros Hne He; [done|].
  rewrite app_cons. simpl. destruct x as [|d x].
  - simpl in He. change ("" +:+ y) with y.
    destruct (Py.rstrip y) as [|e t]; [|by exists (String e t)].
    rewrite He. by exists "".
  - destruct IH as [y' Hy']; [done|by simpl in *|].
    rewrite Hy'. rewrite app_cons. by exists y'.
Qed.

Lemma clean_text_keeps k a b :
  clean_text k = k → k ≠ "" →
  ∃ a' b', clean_text (a +:+ k +:+ b) = a' +:+ k +:+ b'.
Proof.
  intros Hk Hne. destruct (normalised_facts k Hk Hne) as (Hs & Hst & Hen).
  unfold clean_text, Py.strip.
  rewrite (sub_spaces_app _ a), (sub_spaces_app _ k).
  rewrite (sub_spaces_start _ k Hst), Hs.
  rewrite (ends_nonempty _ false k Hne), Hen.
  set (A := Py.sub_spaces false a). set (B := Py.sub_spaces false b).
  destruct (rstrip_app (A +:+ k) B) as [B' HB'].
  { destruct A; [done|by rewrite app_cons]. }
  { rewrite ends_app. by rewrite (ends_nonempty _ false k Hne). }
  rewrite <- app_assoc_s, HB', app_assoc_s.
  destruct (lstrip_app A (k +:+ B')) as [A' HA'].
  { destruct k; [done|]. by rewrite app_cons. }
  { destruct k; [done|]. by rewrite app_cons. }
  rewrite HA'. by exists A', B'.
Qed.

Lemma find_nonneg_iff s sub : 0 ≤ Py.find s sub ↔ Py.contains sub s = true.
Proof.
  unfold Py.find, Py.contains. rewrite bool_decide_eq_true.
  destruct (String.index 0 sub s) as [n|]; split.
  - intros _. eauto.
  - lia.
  - lia.
  - by intros [? ?].
Qed.

Lemma join_contains sep (l : list string) t :
  t ∈ l → ∃ a b, Py.join sep l = a +:+ t +:+ b.
Proof.
  unfold Py.join. induction l as [|x l IH]; intros Hin.
  { by apply elem_of_nil in Hin. }
  apply elem_of_cons in Hin as [->|Hin].
  - destruct l as [|y l]; simpl.
    + exists "", "". by rewrite app_nil_r_s.
    + by exists "", (sep +:+ String.concat sep (y :: l)).
  - destruct (IH Hin) as (a & b & Hab). destruct l as [|y l].
    { by apply elem_of_nil in Hin. }
    change (String.concat sep (x :: y :: l))
      with (x +:+ sep +:+ String.concat sep (y :: l)).
    rewrite Hab. exists (x +:+ sep +:+ a), b. by rewrite !app_assoc_s.
Qed.

(** ** Where a text node sits in the tree *)

Lemma node_nested_ind (P : node → Prop) :
  (∀ s, P (NavigableString s)) →
  (∀ nm a cs, Forall P cs → P (Tag nm a cs)) →
  ∀ n, P n.
Proof.
  intros Hs Ht. fix IH 1. intros [s|nm a cs]; [apply Hs|].
  apply Ht. induction cs as [|c cs IHcs]; constructor; [apply IH|apply IHcs].
Qed.

Lemma elem_of_each_child {A} (f : node → list node → list A) (l : list node) x :
  x ∈ each_child f l → ∃ c next, c ∈ l ∧ x ∈ f c next.
Proof.
  induction l as [|c l IH]; simpl.
  { by intros ?%elem_of_nil. }
  intros [Hx|Hx]%elem_of_app.
  - exists c, l. split; [by left|done].
  - destruct (IH Hx) as (c' & next & ? & ?). exists c', next.
    split; [by right|done].
Qed.

Lemma elem_of_flat_map {A B} (f : A → list B) (l : list A) x y :
  x ∈ l → y ∈ f x → y ∈ flat_map f l.
Proof.
  intros Hx Hy. apply list_elem_of_In, in_flat_map. exists x.
  by rewrite <- !list_elem_of_In.
Qed.

(** Every tag that encloses a text node holds the text of that node
    among the strings below it. *)
Lemma strings_of_enclosed n :
  ∀ next ups m, m ∈ strings_of ups n next →
    text m ∈ all_strings n
    ∧ ∃ inner, parents m = inner ++ ups
               ∧ ∀ e, e ∈ inner → text m ∈ flat_map all_strings (contents e).
Proof.
  induction n as [s|nm a cs IH] using node_nested_ind; intros next ups m; simpl.
  - intros Hm. apply list_elem_of_singleton in Hm. subst m. simpl.
    split; [by left|].
    exists []. split; [done|]. by intros e ?%elem_of_nil.
  - intros (c & next' & Hc & Hm)%elem_of_each_child.
    rewrite Forall_forall in IH.
    destruct (IH c Hc _ _ _ Hm) as (Ht & inner & Hp & Hin).
    assert (text m ∈ flat_map all_strings cs) as Hcs
      by by eapply elem_of_flat_map.
    split; [done|].
    exists (inner ++ [Element nm a cs next]). split.
    + by rewrite Hp, <- app_assoc.
    + intros e [He|He]%elem_of_app; [by apply Hin|].
      apply list_elem_of_singleton in He. by subst e.
Qed.

Lemma match_enclosed soup kw m e :
  m ∈ find_all_string soup kw → e ∈ enclosing soup m →
  text m ∈ flat_map all_strings (contents e).
Proof.
  unfold find_all_string, enclosing.
  intros [_ (c & next & Hc & Hm)%elem_of_each_child]%list_elem_of_filter He.
  destruct (strings_of_enclosed c _ _ _ Hm) as (Ht & inner & Hp & Hin).
  rewrite app_nil_r in Hp. subst inner.
  apply elem_of_app in He as [He|He]; [by apply Hin|].
  apply list_elem_of_singleton in He. subst e.
  simpl. by eapply elem_of_flat_map.
Qed.

Lemma climb_elem_of container ups : climb container ups ∈ container :: ups.
Proof.
  revert container. induction ups as [|p ups IH]; intros container; simpl.
  { by left. }
  case_bool_decide; [by left|]. case_bool_decide; [right; by left|].
  right. apply IH.
Qed.

Lemma block_container_enclosing soup m :
  block_container soup m ∈ enclosing soup m.
Proof.
  unfold block_container.
  replace (enclosing soup m)
    with (match_parent soup m :: strictly_enclosing soup m).
  { apply climb_elem_of. }
  unfold match_parent, strictly_enclosing, enclosing. by destruct (parents m).
Qed.

(** A keyword that the normaliser leaves as it is occurs in the
    normalised text of everything that encloses one of its matches. *)
Lemma normalised_keyword_found soup kw m e :
  m ∈ find_all_string soup kw → e ∈ enclosing soup m →
  clean_text kw = kw → kw ≠ "" →
  0 ≤ Py.find (Py.lower (clean_text (get_text " " e))) (Py.lower kw).
Proof.
  intros Hm He Hk Hne. apply find_nonneg_iff, contains_true.
  pose proof (match_enclosed _ _ _ _ Hm He) as Ht.
  apply list_elem_of_filter in Hm as [Hs _].
  apply Is_true_true, contains_true in Hs as (x & y & Hxy).
  destruct (join_contains " " _ _ Ht) as (a & b & Hab).
  unfold get_text. rewrite Hab, lower_clean_text, !lower_app, Hxy.
  rewrite !app_assoc_s, <- (app_assoc_s (Py.lower a) x).
  apply clean_text_keeps.
  - by rewrite <- lower_clean_text, Hk.
  - by rewrite lower_eq_nil.
Qed.



(** ** The link filter *)

Section Links.
Context (urljoin : string → string → option string).
Context (netloc : string → option string).

Local Abbreviation visit_link' := (visit_link urljoin netloc).
Local Abbreviation find_relevant_links' := (find_relevant_links urljoin netloc).

Lemma visit_link_Some base_url domain keywords links link links' :
  visit_link' base_url domain keywords links link = Some links' →
  ∀ u, u ∈ links' →
    u ∈ links
    ∨ (keywords ≠ [] ∧ netloc u = Some domain
       ∧ ∃ href, get_attr "href" (attrs link) = Some href
                 ∧ urljoin base_url href = Some u).
Proof.
  unfold visit_link. intros H u Hu.
  destruct (get_attr "href" (attrs link)) as [href|] eqn:Hh; [|done]. simpl in H.
  destruct (urljoin base_url href) as [full_url|] eqn:Hj; [|done]. simpl in H.
  destruct (netloc full_url) as [there|] eqn:Hn; [|done]. simpl in H.
  case_bool_decide as Hd; [injection H as <-; by left|].
  destruct (mentions keywords _ href) eqn:Hm; injection H as <-; [|by left].
  apply elem_of_union in Hu as [->%elem_of_singleton|?]; [|by left].
  right. split_and!; [by destruct keywords| |eauto].
  rewrite Hn. f_equal. by destruct (decide (there = domain)).
Qed.

Lemma foldl_links_None base_url domain keywords (l : list element) :
  foldl (λ acc link, acc ≫= λ relevant_links,
           visit_link' base_url domain keywords relevant_links link) None l
  = None.
Proof. by induction l. Qed.

Lemma foldl_links_Some base_url domain keywords (l : list element) links links' :
  foldl (λ acc link, acc ≫= λ relevant_links,
           visit_link' base_url domain keywords relevant_links link)
    (Some links) l = Some links' →
  ∀ u, u ∈ links' →
    u ∈ links
    ∨ (keywords ≠ [] ∧ netloc u = Some domain
       ∧ ∃ link href, link ∈ l ∧ get_attr "href" (attrs link) = Some href
                      ∧ urljoin base_url href = Some u).
Proof.
  revert links. induction l as [|link l IH]; intros links; simpl.
  { intros [= <-] u ?. by left. }
  destruct (visit_link' base_url domain keywords links link) as [links1|] eqn:Hv.
  2:{ by rewrite foldl_links_None. }
  intros H u Hu. destruct (IH _ H u Hu) as [Hin|(? & ? & link' & href & ? & ? & ?)].
  - destruct (visit_link_Some _ _ _ _ _ _ Hv u Hin) as [?|(? & ? & href & ? & ?)];
      [by left|].
    right. split_and!; [done..|]. exists link, href. split; [by left|done].
  - right. split_and!; [done..|]. exists link', href. split; [by right|done].
Qed.

(** C6. Every address that the link filter returns is the resolution of
    the href of some anchor of the page against the seed address, and
    its network location is that of the seed; so an address with another
    network location is never returned, whatever its anchor text and
    href contain. *)
Theorem same_domain_links (base_url : string) (soup : list node)
    (keywords : list string) (links : gset string) :
  find_relevant_links' base_url soup keywords = Some links →
  (∀ u, u ∈ links →
     netloc u = netloc base_url
     ∧ ∃ link href, link ∈ anchors soup
                    ∧ get_attr "href" (attrs link) = Some href
                    ∧ urljoin base_url href = Some u)
  ∧ (∀ u, netloc u ≠ netloc base_url → u ∉ links).
Proof.
  unfold find_relevant_links. intros H.
  destruct (netloc base_url) as [domain|] eqn:Hd; [|done]. simpl in H.
  assert (∀ u, u ∈ links →
     netloc u = Some domain
     ∧ ∃ link href, link ∈ anchors soup
                    ∧ get_attr "href" (attrs link) = Some href
                    ∧ urljoin base_url href = Some u) as Hall.
  { intros u Hu.
    destruct (foldl_links_Some _ _ _ _ _ _ H u Hu) as [?|(_ & ? & ?)];
      [set_solver|done]. }
  split; [done|]. intros u Hne Hu. by destruct (Hall u Hu).
Qed.

Lemma find_relevant_links_nil base_url soup links :
  find_relevant_links' base_url soup [] = Some links → links = ∅.
Proof.
  unfold find_relevant_links. intros H.
  destruct (netloc base_url) as [domain|]; [|done]. simpl in H.
  apply leibniz_equiv, elem_of_equiv_empty. intros u Hu.
  destruct (foldl_links_Some _ _ _ _ _ _ H u Hu) as [?|(? & _)]; [set_solver|done].
Qed.

End Links.

(** ** The orchestrator *)

Lemma bind_ext_in {A B} (f g : A → list B) (l : list A) :
  (∀ x, x ∈ l → f x = g x) → l ≫= f = l ≫= g.
Proof.
  induction l as [|x l IH]; intros H; [done|].
  rewrite !bind_cons, IH, (H x); [done|by left|].
  intros ??. apply H. by right.
Qed.

Lemma visited_later (x link : string) (visited : gset string) :
  x ≠ link →
  bool_decide (x ∈ {[link]} ∪ visited) = bool_decide (x ∈ visited).
Proof.
  intros Hne. apply bool_decide_ext.
  rewrite elem_of_union, elem_of_singleton. tauto.
Qed.

Lemma requested_app t1 t2 : requested (t1 ++ t2) = requested t1 ++ requested t2.
Proof.
  induction t1 as [|e t1 IH]; [done|]. destruct e; simpl; by rewrite IH.
Qed.

Lemma requested_page_events (visited : gset string) (l : list string) :
  requested (l ≫= page_events visited) = filter (λ x, x ∉ visited) l.
Proof.
  induction l as [|x l IH]; [done|].
  rewrite bind_cons, requested_app, IH. unfold page_events.
  case_bool_decide.
  - by rewrite filter_cons_False by (by intros ?).
  - by rewrite filter_cons_True by done.
Qed.

Section Orchestrator.
Context (urljoin : string → string → option string).
Context (netloc : string → option string).
Context (BeautifulSoup : string → option (list node)).
Context (set_order : gset string → list string).

Section OneClient.
Context (requests_get : string → Z → option response).

Local Abbreviation sub_page' := (sub_page requests_get BeautifulSoup).
Local Abbreviation visit_page' := (visit_page requests_get BeautifulSoup).
Local Abbreviation phase1' :=
  (phase1 urljoin netloc requests_get BeautifulSoup).
Local Abbreviation scrape_logic' :=
  (scrape_logic urljoin netloc requests_get BeautifulSoup set_order).

Local Abbreviation page_records' := (page_records requests_get BeautifulSoup).

Lemma foldl_visit_page keywords_list (l : list string) r :
  NoDup l →
  all_data (foldl (visit_page' keywords_list) r l)
  = all_data r ++ (l ≫= page_records' keywords_list (visited_urls r))
  ∧ trace (foldl (visit_page' keywords_list) r l)
    = trace r ++ (l ≫= page_events (visited_urls r)).
Proof.
  revert r. induction l as [|link l IH]; intros r Hnd.
  { simpl. by rewrite !app_nil_r. }
  apply NoDup_cons in Hnd as [Hlink Hnd].
  rewrite !bind_cons. cbn [foldl].
  destruct (IH (visit_page' keywords_list r link) Hnd) as [-> ->].
  unfold visit_page, page_records at 2, page_events at 2.
  case_bool_decide as Hv; simpl.
  { done. }
  rewrite <- !app_assoc. split; do 2 f_equal.
  - apply bind_ext_in. intros x Hx. unfold page_records.
    rewrite visited_later; [done|by intros ->].
  - simpl. do 3 f_equal.
    apply bind_ext_in. intros x Hx. unfold page_events.
    rewrite visited_later; [done|by intros ->].
Qed.

Lemma sub_page_url link keywords_list recs r :
  sub_page' link keywords_list = Some recs → r ∈ recs → url r = Some link.
Proof.
  unfold sub_page'. destruct (requests_get link 10) as [resp|]; [|done]. simpl.
  destruct (BeautifulSoup (body resp)) as [sub_soup|]; [|done]. simpl.
  intros [= <-] (it & -> & _)%list_elem_of_fmap. done.
Qed.

(** The whole run, when Phase 1 succeeds and the loop meets every
    member of the set once. *)
Lemma scrape_logic_success base_url keywords_list home_data child_links :
  set_order child_links ≡ₚ elements child_links →
  phase1' base_url keywords_list = Some (home_data, child_links) →
  scrape_logic' base_url keywords_list
  = (home_data
       ++ (set_order child_links ≫= page_records' keywords_list {[base_url]}),
     [InfoPhase1 base_url; Get base_url 15]
       ++ (if bool_decide (child_links ≠ ∅)
           then [InfoPhase2 (size child_links)] else [WarningNoLinks])
       ++ (set_order child_links ≫= page_events {[base_url]})).
Proof.
  intros Hperm Hp. unfold scrape_logic. rewrite Hp.
  case_bool_decide as Hne; simpl.
  - assert (NoDup (set_order child_links)) as Hnd.
    { rewrite Hperm. apply NoDup_elements. }
    destruct (foldl_visit_page keywords_list (set_order child_links)
      (Run home_data {[base_url]}
         ([InfoPhase1 base_url; Get base_url 15] ++
          [InfoPhase2 (size child_links)])) Hnd) as [H1 H2].
    simpl in H1, H2. by rewrite H1, H2.
  - assert (child_links = ∅) as -> by by destruct (decide (child_links = ∅)).
    rewrite elements_empty in Hperm. apply Permutation_nil_r in Hperm.
    rewrite Hperm. simpl. by rewrite app_nil_r.
Qed.

Lemma phase1_Some base_url keywords_list home_data child_links :
  phase1' base_url keywords_list = Some (home_data, child_links) ↔
  ∃ response soup,
    requests_get base_url 15 = Some response
    ∧ BeautifulSoup (body response) = Some soup
    ∧ home_data = set_url base_url <$>
        get_structured_data (decompose_all noise_home soup) keywords_list
    ∧ find_relevant_links urljoin netloc base_url
        (decompose_all noise_home soup) keywords_list = Some child_links.
Proof.
  unfold phase1. split.
  - destruct (requests_get base_url 15) as [response|]; [|done]. simpl.
    destruct (BeautifulSoup (body response)) as [soup|] eqn:Hs; [|done]. simpl.
    destruct (find_relevant_links _ _ _ _ _) as [links|] eqn:Hl; [|done]. simpl.
    intros [= <- <-]. by exists response, soup.
  - intros (response & soup & -> & Hs & -> & Hl). simpl.
    rewrite Hs. simpl. by rewrite Hl.
Qed.

(** C9 (as amended). With an empty list of keywords the run returns
    no record and follows no link, but it does request the seed page:
    for every seed address exactly one request is made, the one of
    Phase 1. *)
Theorem empty_keyword_list (base_url : string) :
  (scrape_logic' base_url []).1 = []
  ∧ requested (scrape_logic' base_url []).2 = [base_url].
Proof.
  unfold scrape_logic.
  destruct (phase1' base_url []) as [[home_data child_links]|] eqn:Hp; [|done].
  apply phase1_Some in Hp as (response & soup & _ & _ & -> & Hl).
  apply find_relevant_links_nil in Hl as ->.
  rewrite bool_decide_eq_false_2; [done|]. by intros Hne.
Qed.

(** C3. When the request for the seed page fails, the run stops and
    returns the empty list. When Phase 1 succeeds, a candidate link
    whose request fails costs the records of that link and nothing
    else: every candidate other than the seed is requested, no record
    carries the address of a failed link, and the returned list holds
    the records of the seed page and of every candidate page that was
    fetched and parsed. The loop is taken to meet each member of the
    set of links once, in any order. *)
Theorem fatal_and_recoverable (base_url : string)
    (keywords_list : list string) :
  (∀ links, set_order links ≡ₚ elements links) →
  (requests_get base_url 15 = None →
     scrape_logic' base_url keywords_list
     = ([], [InfoPhase1 base_url; Get base_url 15; ErrorMessage]))
  ∧ (∀ response soup child_links,
       requests_get base_url 15 = Some response →
       BeautifulSoup (body response) = Some soup →
       find_relevant_links urljoin netloc base_url
         (decompose_all noise_home soup) keywords_list = Some child_links →
       let returned := (scrape_logic' base_url keywords_list).1 in
       let happened := (scrape_logic' base_url keywords_list).2 in
       (∀ r, r ∈ get_structured_data (decompose_all noise_home soup)
                   keywords_list →
             set_url base_url r ∈ returned)
       ∧ ∀ link, link ∈ child_links → link ≠ base_url →
           link ∈ requested happened
           ∧ (requests_get link 10 = None →
                ∀ r, r ∈ returned → url r ≠ Some link)
           ∧ (∀ resp sub_soup r,
                requests_get link 10 = Some resp →
                BeautifulSoup (body resp) = Some sub_soup →
                r ∈ get_structured_data (decompose_all noise_sub sub_soup)
                      keywords_list →
                set_url link r ∈ returned)).
Proof.
  intros Hperm. split.
  { intros Hfail. unfold scrape_logic, phase1.
    by rewrite Hfail. }
  intros response soup child_links Hget Hsoup Hlinks returned happened.
  assert (phase1' base_url keywords_list
          = Some (set_url base_url <$> get_structured_data
                    (decompose_all noise_home soup) keywords_list,
                  child_links)) as Hp.
  { apply phase1_Some. by exists response, soup. }
  pose proof (scrape_logic_success _ _ _ _ (Hperm child_links) Hp) as Hrun.
  subst returned happened. rewrite Hrun. cbn [fst snd]. split.
  { intros r Hr. apply elem_of_app. left. by apply list_elem_of_fmap_2. }
  intros link Hlink Hne.
  assert (link ∈ set_order child_links) as Hin.
  { rewrite (Hperm child_links). by apply elem_of_elements. }
  assert (bool_decide (link ∈ ({[base_url]} : gset string)) = false) as Hnv.
  { apply bool_decide_eq_false_2. by intros ?%elem_of_singleton. }
  split_and!.
  - rewrite !requested_app, requested_page_events.
    apply elem_of_app. right. apply elem_of_app. right.
    apply list_elem_of_filter. split; [|done].
    by intros ?%elem_of_singleton.
  - intros Hfail r [Hr|Hr]%elem_of_app Hu.
    + apply list_elem_of_fmap in Hr as (it & -> & _). simpl in Hu. congruence.
    + apply list_elem_of_bind in Hr as (link' & Hr & _).
      unfold page_records in Hr. case_bool_decide; [by apply elem_of_nil in Hr|].
      destruct (sub_page' link' keywords_list) as [recs|] eqn:Hs;
        [|by apply elem_of_nil in Hr].
      simpl in Hr. rewrite (sub_page_url _ _ _ _ Hs Hr) in Hu.
      injection Hu as ->. unfold sub_page in Hs. by rewrite Hfail in Hs.
  - intros resp sub_soup r Hresp Hsub Hr. apply elem_of_app. right.
    apply list_elem_of_bind. exists link. split; [|done].
    unfold page_records, sub_page. rewrite Hnv, Hresp. simpl.
    rewrite Hsub. simpl. by apply list_elem_of_fmap_2.
Qed.

(** The pages that were fetched and parsed are in what the run returns,
    whatever status came with them. *)
Lemma fetched_pages_recorded (base_url : string) (keywords_list : list string)
    (status : Z) (markup : string) (soup : list node)
    (child_links : gset string) :
  set_order child_links ≡ₚ elements child_links →
  requests_get base_url 15 = Some (Response status markup) →
  BeautifulSoup markup = Some soup →
  find_relevant_links urljoin netloc base_url
    (decompose_all noise_home soup) keywords_list = Some child_links →
  (∀ r, r ∈ get_structured_data (decompose_all noise_home soup) keywords_list →
        set_url base_url r ∈ (scrape_logic' base_url keywords_list).1)
  ∧ (∀ link sub_status sub_markup sub_soup r,
       link ∈ child_links → link ≠ base_url →
       requests_get link 10 = Some (Response sub_status sub_markup) →
       BeautifulSoup sub_markup = Some sub_soup →
       r ∈ get_structured_data (decompose_all noise_sub sub_soup) keywords_list →
       set_url link r ∈ (scrape_logic' base_url keywords_list).1).
Proof.
  intros Hperm Hget Hsoup Hlinks.
  assert (phase1' base_url keywords_list
          = Some (set_url base_url <$> get_structured_data
                    (decompose_all noise_home soup) keywords_list,
                  child_links)) as Hp.
  { apply phase1_Some. by exists (Response status markup), soup. }
  rewrite (scrape_logic_success _ _ _ _ Hperm Hp). cbn [fst]. split.
  - intros r Hr. apply elem_of_app. left. by apply list_elem_of_fmap_2.
  - intros link sub_status sub_markup sub_soup r Hlink Hne Hresp Hsub Hr.
    apply elem_of_app. right. apply list_elem_of_bind. exists link. split.
    + unfold page_records, sub_page.
      rewrite bool_decide_eq_false_2 by (by intros ?%elem_of_singleton).
      rewrite Hresp. simpl. rewrite Hsub. simpl. by apply list_elem_of_fmap_2.
    + rewrite Hperm. by apply elem_of_elements.
Qed.

End OneClient.

(** C10. The run reads the body of a response and nothing else of it:
    two clients that fail on the same requests and answer the others
    with the same body, whatever the status codes, lead to the same
    returned list and the same trace. A response is a successful fetch
    whatever its status code: when Phase 1 succeeds, the records of the
    body of the seed page, and of the body of every candidate page that
    is answered and parsed, are in the returned list, for every status
    code that comes with the bodies. The order in which the loop meets
    the links is the same in both runs, and each member of the set of
    links is met once. *)
Theorem status_code_ignored
    (get1 get2 : string → Z → option response)
    (base_url : string) (keywords_list : list string) :
  (∀ address timeout,
     body <$> get1 address timeout = body <$> get2 address timeout) →
  scrape_logic urljoin netloc get1 BeautifulSoup set_order base_url keywords_list
  = scrape_logic urljoin netloc get2 BeautifulSoup set_order base_url keywords_list
  ∧ ((∀ links, set_order links ≡ₚ elements links) →
     ∀ status markup soup child_links,
       get1 base_url 15 = Some (Response status markup) →
       BeautifulSoup markup = Some soup →
       find_relevant_links urljoin netloc base_url
         (decompose_all noise_home soup) keywords_list = Some child_links →
       let returned :=
         (scrape_logic urljoin netloc get1 BeautifulSoup set_order
            base_url keywords_list).1 in
       (∀ r, r ∈ get_structured_data (decompose_all noise_home soup)
                   keywords_list →
             set_url base_url r ∈ returned)
       ∧ (∀ link sub_status sub_markup sub_soup r,
            link ∈ child_links → link ≠ base_url →
            get1 link 10 = Some (Response sub_status sub_markup) →
            BeautifulSoup sub_markup = Some sub_soup →
            r ∈ get_structured_data (decompose_all noise_sub sub_soup)
                  keywords_list →
            set_url link r ∈ returned)).
Proof.
  intros Hsame. split.
  - assert (phase1 urljoin netloc get1 BeautifulSoup base_url keywords_list
            = phase1 urljoin netloc get2 BeautifulSoup base_url keywords_list)
      as Hp.
    { unfold phase1. specialize (Hsame base_url 15).
      destruct (get1 base_url 15) as [r1|], (get2 base_url 15) as [r2|];
        simpl in *; try done.
      injection Hsame as Hb. by rewrite Hb. }
    assert (∀ link, sub_page get1 BeautifulSoup link keywords_list
                    = sub_page get2 BeautifulSoup link keywords_list) as Hs.
    { intros link. unfold sub_page. specialize (Hsame link 10).
      destruct (get1 link 10) as [r1|], (get2 link 10) as [r2|];
        simpl in *; try done.
      injection Hsame as Hb. by rewrite Hb. }
    assert (∀ l r, foldl (visit_page get1 BeautifulSoup keywords_list) r l
                   = foldl (visit_page get2 BeautifulSoup keywords_list) r l)
      as Hf.
    { induction l as [|link l IH]; intros r; [done|].
      simpl. rewrite IH. f_equal. unfold visit_page. by rewrite Hs. }
    unfold scrape_logic. rewrite Hp.
    destruct (phase1 _ _ get2 _ _ _) as [[home_data child_links]|]; [|done].
    by rewrite Hf.
  - intros Hperm status markup soup child_links Hget Hsoup Hlinks returned.
    apply (fetched_pages_recorded get1 base_url keywords_list status markup
             soup child_links (Hperm child_links) Hget Hsoup Hlinks).
Qed.

End Orchestrator.

(** ** The statements on concrete documents and on a concrete site *)

Section Instances.
Import Examples.

Local Abbreviation run_on client :=
  (scrape_logic urljoin netloc client parse elements).





(** The normaliser joins the two spaces of the text, the keyword is no
    longer found, and the window is the first 149 characters. *)
Lemma spaced_keyword_is_lost :
  let kw := "annual  fee" in
  let m := nth_match spaced_paragraph kw 0 in
  find_all_string spaced_paragraph kw !! 0%nat = Some m
  ∧ (classify spaced_paragraph kw m).2 = TextBlock
  ∧ Py.find (Py.lower (clean_text (get_text " "
               (block_container spaced_paragraph m)))) (Py.lower kw) = -1
  ∧ (classify spaced_paragraph kw m).1
    = "..." +:+ "annual fee" +:+ times "z" 139 +:+ "..."
  ∧ Py.search_ignorecase kw (classify spaced_paragraph kw m).1 = false.
Proof. split_and!; by vm_compute. Qed.


(** The link to the other site mentions the keyword and is left out. *)
Lemma same_domain_links_witness :
  netloc "http://bank.example/fees" = netloc seed
  ∧ "http://other.example/fees"
      ∉ ({["http://bank.example/gone"; "http://bank.example/cards";
           "http://bank.example/fees"]} : gset string).
Proof.
  destruct (same_domain_links urljoin netloc seed home_page ["fee"]
              {["http://bank.example/gone"; "http://bank.example/cards";
                "http://bank.example/fees"]}) as [Hin Hout].
  - by vm_compute.
  - split.
    + apply Hin. set_solver.
    + apply Hout. by vm_compute.
Defined.

(** A bold label followed by a span with text. *)
Lemma section_header_snippet_witness :
  classify bold_with_value "fee" (nth_match bold_with_value "fee" 0)
  = ("Fee: 100 rs", SectionHeader).
Proof.
  apply (section_header_snippet bold_with_value "fee"
           (nth_match bold_with_value "fee" 0)
           (Element "b" [] [NavigableString "Fee"]
              [NavigableString " "; Tag "span" [] [NavigableString " 100  rs "]])
           [Element "div" []
              [Tag "b" [] [NavigableString "Fee"]; NavigableString " ";
               Tag "span" [] [NavigableString " 100  rs "]] []]).
  - by vm_compute.
  - vm_compute. right. left.
  - intros (a & Ha & Hn). vm_compute in Ha.
    repeat (apply elem_of_cons in Ha as [->|Ha]; [done|]).
    by apply elem_of_nil in Ha.
Defined.

(** C7, as stated, fails: the bold label has a next sibling element,
    the line break, whose text is empty, and the text of the parent is
    taken. *)
Lemma empty_sibling_falls_back :
  let m := nth_match bold_with_break "fee" 0 in
  let element := match_parent bold_with_break m in
  find_all_string bold_with_break "fee" !! 0%nat = Some m
  ∧ name element = "b"
  ∧ find_next_sibling element = Some (Element "br" [] [] [NavigableString "100"])
  ∧ classify bold_with_break "fee" m = ("Fee100", SectionHeader)
  ∧ (classify bold_with_break "fee" m).1
    ≠ clean_text (get_text "" element) +:+ ": "
      +:+ clean_text (get_text "" (Element "br" [] [] [NavigableString "100"])).
Proof. split_and!; by vm_compute. Qed.

(** One link of three fails; the records of the two others are
    returned. *)
Lemma fatal_and_recoverable_witness :
  run_on down seed ["fee"]
    = ([], [InfoPhase1 seed; Get seed 15; ErrorMessage])
  ∧ "http://bank.example/gone" ∈ requested (run_on (site 200) seed ["fee"]).2
  ∧ (∀ r, r ∈ (run_on (site 200) seed ["fee"]).1
          → url r ≠ Some "http://bank.example/gone")
  ∧ Item "fee" "No fee card" ListItem (Some "http://bank.example/cards")
      ∈ (run_on (site 200) seed ["fee"]).1
  ∧ Item "fee" "Joining fee: 500 per year" SectionHeader
      (Some "http://bank.example/fees")
      ∈ (run_on (site 200) seed ["fee"]).1.
Proof.
  assert (∀ links : gset string, elements links ≡ₚ elements links) as Hperm
    by done.
  split.
  { apply (fatal_and_recoverable urljoin netloc parse elements down seed
             ["fee"] Hperm). reflexivity. }
  destruct (find_relevant_links urljoin netloc seed
              (decompose_all noise_home home_page) ["fee"])
    as [links|] eqn:Hl; [|by vm_compute in Hl].
  destruct (proj2 (fatal_and_recoverable urljoin netloc parse elements
                     (site 200) seed ["fee"] Hperm)
              (Response 200 "home") home_page links
              eq_refl eq_refl Hl) as [_ Hlinks].
  assert (Some links = Some (list_to_set
            ["http://bank.example/gone"; "http://bank.example/cards";
             "http://bank.example/fees"])) as [= ->].
  { rewrite <- Hl. by vm_compute. }
  split_and!.
  - apply (Hlinks "http://bank.example/gone"); [set_solver|done].
  - apply (Hlinks "http://bank.example/gone"); [set_solver|done|reflexivity].
  - apply (proj2 (proj2 (Hlinks "http://bank.example/cards"
                           ltac:(set_solver) ltac:(done)))
             (Response 200 "cards") cards_page
             (Item "fee" "No fee card" ListItem None) eq_refl eq_refl).
    vm_compute. by left.
  - apply (proj2 (proj2 (Hlinks "http://bank.example/fees"
                           ltac:(set_solver) ltac:(done)))
             (Response 200 "fees") fees_page
             (Item "fee" "Joining fee: 500 per year" SectionHeader None)
             eq_refl eq_refl).
    vm_compute. by left.
Defined.

(** C8. The page that yields nothing from its [noscript] block when it
    is the seed yields a record from it when it is reached through a
    link: line 215 leaves "noscript" out of the list of line 179. *)
Theorem noscript_kept_on_child_pages :
  (run_on fees_first "http://bank.example/fees" ["fee"]).1
    = [Item "fee" "Joining fee: 500 per year" SectionHeader
         (Some "http://bank.example/fees")]
  ∧ filter (λ r, url r = Some "http://bank.example/fees")
      (run_on (site 200) seed ["fee"]).1
    = [Item "fee" "Joining fee: 500 per year" SectionHeader
         (Some "http://bank.example/fees");
       Item "fee" "hidden fee" TextBlock (Some "http://bank.example/fees")]
  ∧ decompose_all noise_home fees_page ≠ decompose_all noise_sub fees_page.
Proof. split_and!; by vm_compute. Qed.

(** C9, as stated, fails: with no keyword the seed page is requested
    all the same. *)
Lemma empty_keyword_list_requests_seed :
  run_on (site 200) seed []
    = ([], [InfoPhase1 seed; Get seed 15; WarningNoLinks])
  ∧ requested (run_on (site 200) seed []).2 ≠ [].
Proof. split; by vm_compute. Qed.

(** The fees page comes with status 404 in one run and with status 200
    in the other; its records are returned in both. *)
Lemma status_code_ignored_witness :
  run_on (site 404) seed ["fee"] = run_on (site 200) seed ["fee"]
  ∧ Item "fee" "Joining fee: 500 per year" SectionHeader
      (Some "http://bank.example/fees")
      ∈ (run_on (site 404) seed ["fee"]).1.
Proof.
  destruct (status_code_ignored urljoin netloc parse elements
              (site 404) (site 200) seed ["fee"]) as [Hsame Hrecorded].
  { intros address timeout. unfold site. by repeat case_bool_decide. }
  split; [done|].
  destruct (Hrecorded (λ links, reflexivity (elements links))
              200 "home" home_page
              {["http://bank.example/gone"; "http://bank.example/cards";
                "http://bank.example/fees"]}) as [_ Hchild].
  - by vm_compute.
  - by vm_compute.
  - by vm_compute.
  - apply (Hchild "http://bank.example/fees" 404 "fees" fees_page
             (Item "fee" "Joining fee: 500 per year" SectionHeader None)).
    + set_solver.
    + done.
    + by vm_compute.
    + by vm_compute.
    + vm_compute. by left.
Defined.

End Instances.

(** ** The normal form of the text normaliser *)

Lemma app_inv_length a b c d :
  a +:+ b = c +:+ d → String.length a = String.length c → a = c ∧ b = d.
Proof.
  revert c. induction a as [|x a IH]; intros [|y c] H Hl; try done.
  rewrite !app_cons in H. injection H as -> H. simpl in Hl.
  destruct (IH c H) as [-> ->]; [lia|done].
Qed.

Lemma sub_spaces_idem r s :
  Py.sub_spaces r (Py.sub_spaces r s) = Py.sub_spaces r s.
Proof.
  revert r. induction s as [|c s IH]; intros r; [done|]. simpl.
  destruct (Py.isspace c) eqn:Hc; [destruct r|]; simpl; rewrite ?Hc, ?IH; done.
Qed.

Lemma sub_spaces_fixed_app r p q :
  Py.sub_spaces r (p +:+ q) = p +:+ q →
  Py.sub_spaces r p = p ∧ Py.sub_spaces (ends_with_space r p) q = q.
Proof.
  rewrite sub_spaces_app. intros H. apply app_inv_length; [done|].
  pose proof (length_sub_spaces r p).
  pose proof (length_sub_spaces (ends_with_space r p) q).
  apply (f_equal String.length) in H. rewrite !length_app_s in H. lia.
Qed.

Lemma sub_spaces_in_run_fixed s :
  Py.sub_spaces true s = s → starts_with_space s = false.
Proof.
  destruct s as [|c s]; [done|]. simpl. destruct (Py.isspace c); [|done].
  intros H. pose proof (length_sub_spaces true s) as Hl. rewrite H in Hl.
  simpl in Hl. lia.
Qed.

Lemma rstrip_prefix u : ∃ w, u = Py.rstrip u +:+ w.
Proof.
  induction u as [|c u [w Hw]]; [by exists ""|]. simpl.
  destruct (Py.rstrip u) as [|d t] eqn:E.
  - destruct (Py.isspace c); [by exists (String c u)|].
    exists u. by rewrite app_cons.
  - exists w. by rewrite app_cons, <- Hw.
Qed.

Lemma lstrip_suffix u : ∃ w, u = w +:+ Py.lstrip u.
Proof.
  induction u as [|c u [w Hw]]; [by exists ""|]. simpl.
  destruct (Py.isspace c); [|by exists ""].
  exists (String c w). by rewrite app_cons, <- Hw.
Qed.

Lemma lstrip_starts u : starts_with_space (Py.lstrip u) = false.
Proof.
  induction u as [|c u IH]; [done|]. simpl.
  destruct (Py.isspace c) eqn:Hc; [done|]. simpl. by rewrite Hc.
Qed.

Lemma rstrip_ends u : ends_with_space false (Py.rstrip u) = false.
Proof.
  induction u as [|c u IH]; [done|]. simpl.
  destruct (Py.rstrip u) as [|d t] eqn:E.
  - destruct (Py.isspace c) eqn:Hc; [done|]. simpl. by rewrite Hc.
  - simpl in *. done.
Qed.

Lemma rstrip_id z : ends_with_space false z = false → Py.rstrip z = z.
Proof.
  induction z as [|c z IH]; [done|]. simpl. intros He.
  destruct z as [|d z].
  - simpl in *. by rewrite He.
  - rewrite IH; [done|]. by simpl in *.
Qed.

Lemma lstrip_id z : starts_with_space z = false → Py.lstrip z = z.
Proof. destruct z as [|c z]; [done|]. simpl. by intros ->. Qed.

Lemma ends_suffix w q :
  ends_with_space false (w +:+ q) = false → ends_with_space false q = false.
Proof.
  rewrite ends_app. destruct q as [|c q]; [done|].
  by rewrite (ends_nonempty _ false).
Qed.

(** The three facts that make up the normal form. *)
Lemma clean_text_normal s :
  Py.sub_spaces false (clean_text s) = clean_text s
  ∧ starts_with_space (clean_text s) = false
  ∧ ends_with_space false (clean_text s) = false.
Proof.
  unfold clean_text, Py.strip. set (u := Py.sub_spaces false s).
  destruct (rstrip_prefix u) as [w Hw].
  destruct (lstrip_suffix (Py.rstrip u)) as [w' Hw'].
  assert (Py.sub_spaces false (Py.rstrip u) = Py.rstrip u) as Hy.
  { apply (sub_spaces_fixed_app false (Py.rstrip u) w).
    rewrite <- Hw. apply sub_spaces_idem. }
  pose proof (lstrip_starts (Py.rstrip u)) as Hst.
  split_and!; [|done|].
  - rewrite Hw' in Hy. apply sub_spaces_fixed_app in Hy as [_ Hy].
    by rewrite (sub_spaces_start _ _ Hst) in Hy.
  - apply (ends_suffix w'). rewrite <- Hw'. apply rstrip_ends.
Qed.

(** X1. Normalising a normalised text changes nothing. *)
Theorem clean_text_idempotent (text : string) :
  clean_text (clean_text text) = clean_text text.
Proof.
  destruct (clean_text_normal text) as (Hs & Hst & Hen).
  unfold clean_text at 1. unfold Py.strip.
  by rewrite Hs, (rstrip_id _ Hen), (lstrip_id _ Hst).
Qed.

(** X2. A normalised text is never longer than the text it comes from,
    it neither starts nor ends with white space, and every white-space
    character in it is a single space between two other characters. *)
Theorem clean_text_shape (text : string) :
  let t := clean_text text in
  Py.len t ≤ Py.len text
  ∧ starts_with_space t = false
  ∧ ends_with_space false t = false
  ∧ ∀ a c b, t = a +:+ String c b → Py.isspace c = true →
      c = " "%char ∧ a ≠ "" ∧ b ≠ ""
      ∧ ends_with_space false a = false ∧ starts_with_space b = false.
Proof.
  intros t. destruct (clean_text_normal text) as (Hs & Hst & Hen). fold t in Hs, Hst, Hen.
  split_and!; [|done..|].
  { unfold t, clean_text, Py.strip, Py.len.
    pose proof (length_lstrip (Py.rstrip (Py.sub_spaces false text))).
    pose proof (length_rstrip (Py.sub_spaces false text)).
    pose proof (length_sub_spaces false text). lia. }
  intros a c b Ht Hc. rewrite Ht in Hs, Hst, Hen.
  apply sub_spaces_fixed_app in Hs as [_ Hs]. simpl in Hs. rewrite Hc in Hs.
  assert (a ≠ "") as Ha.
  { intros ->. simpl in Hst. congruence. }
  assert (b ≠ "") as Hb.
  { intros ->. rewrite ends_app in Hen. simpl in Hen. congruence. }
  destruct (ends_with_space false a) eqn:Hea.
  { pose proof (length_sub_spaces true b) as Hl. rewrite Hs in Hl.
    simpl in Hl. lia. }
  injection Hs as <- Hs. split_and!; try done.
  by apply sub_spaces_in_run_fixed.
Qed.

(** ** The keyword field *)

Lemma all_chars_app p a b :
  all_chars p (a +:+ b) = all_chars p a && all_chars p b.
Proof.
  induction a as [|c a IH]; [done|]. rewrite app_cons. simpl.
  by rewrite IH, andb_assoc.
Qed.

Lemma all_chars_lstrip p s : all_chars p s = true → all_chars p (Py.lstrip s) = true.
Proof.
  induction s as [|c s IH]; [done|]. simpl.
  destruct (Py.isspace c); [|done]. intros [_ ?]%andb_true_iff. auto.
Qed.

Lemma all_chars_rstrip p s : all_chars p s = true → all_chars p (Py.rstrip s) = true.
Proof.
  intros H. destruct (rstrip_prefix s) as [w Hw]. rewrite Hw in H.
  rewrite all_chars_app in H. by apply andb_true_iff in H as [? _].
Qed.

Lemma rstrip_blank s : Py.rstrip s = "" ↔ all_chars Py.isspace s = true.
Proof.
  induction s as [|c s IH]; [done|]. simpl.
  destruct (Py.rstrip s) as [|d t] eqn:E.
  - destruct (Py.isspace c); simpl; [by rewrite <- IH|done].
  - split; [done|]. intros [_ Hs]%andb_true_iff. by apply IH in Hs.
Qed.

Lemma lstrip_blank s : Py.lstrip s = "" ↔ all_chars Py.isspace s = true.
Proof.
  induction s as [|c s IH]; [done|]. simpl.
  destruct (Py.isspace c); simpl; [done|]. split; done.
Qed.

Lemma blank_ends r z :
  all_chars Py.isspace z = true → z ≠ "" → ends_with_space r z = true.
Proof.
  revert r. induction z as [|c z IH]; intros r; [done|]. simpl.
  intros [Hc Hz]%andb_true_iff _. destruct z as [|d z]; [done|].
  by apply IH.
Qed.

Lemma strip_blank s : Py.strip s = "" ↔ all_chars Py.isspace s = true.
Proof.
  unfold Py.strip. rewrite lstrip_blank. split.
  - intros H. apply rstrip_blank. destruct (Py.rstrip s) as [|d t] eqn:E; [done|].
    pose proof (rstrip_ends s) as He. rewrite E in He.
    by rewrite (blank_ends false _ H) in He.
  - intros H. apply rstrip_blank in H. by rewrite H.
Qed.

Lemma strip_idempotent s : Py.strip (Py.strip s) = Py.strip s.
Proof.
  unfold Py.strip. destruct (lstrip_suffix (Py.rstrip s)) as [w Hw].
  rewrite (rstrip_id (Py.lstrip (Py.rstrip s))).
  - apply lstrip_id, lstrip_starts.
  - apply (ends_suffix w). rewrite <- Hw. apply rstrip_ends.
Qed.

Lemma split_commas_cons c s :
  split_commas (String c s)
  = if bool_decide (c = ","%char) then "" :: split_commas s
    else match split_commas s with
         | piece :: pieces => String c piece :: pieces
         | [] => []
         end.
Proof.
  unfold split_commas. simpl. destruct (split_comma s) as [piece pieces].
  by case_bool_decide.
Qed.

Lemma split_commas_nonempty s : split_commas s ≠ [].
Proof. unfold split_commas. by destruct (split_comma s). Qed.

Lemma split_commas_pieces s piece :
  piece ∈ split_commas s → all_chars not_comma piece = true.
Proof.
  revert piece. induction s as [|c s IH]; intros piece.
  { intros Hp. apply list_elem_of_singleton in Hp. by subst. }
  rewrite split_commas_cons. case_bool_decide as Hc.
  - intros [->|Hp]%elem_of_cons; [done|auto].
  - destruct (split_commas s) as [|p ps]; [by intros ?%elem_of_nil|].
    intros [->|Hp]%elem_of_cons.
    + simpl. unfold not_comma at 1. rewrite bool_decide_eq_false_2 by done.
      apply IH. by left.
    + apply IH. by right.
Qed.

Lemma all_chars_occurrence p a c b :
  all_chars p (a +:+ String c b) = true → p c = true.
Proof.
  rewrite all_chars_app. simpl. intros [_ [? _]%andb_true_iff]%andb_true_iff.
  done.
Qed.

(** X3. Every keyword that the form hands to the orchestrator is not
    empty, neither starts nor ends with white space and holds no comma:
    it is the stripped text of one of the pieces between the commas of
    the field. *)
Theorem parse_keywords_entries (keywords_input : string) (i : nat)
    (k : string) :
  parse_keywords keywords_input !! i = Some k →
  k ≠ ""
  ∧ Py.strip k = k
  ∧ (∀ a b, k ≠ a +:+ "," +:+ b)
  ∧ ∃ piece, piece ∈ split_commas keywords_input ∧ k = Py.strip piece.
Proof.
  intros Hi. apply list_elem_of_lookup_2 in Hi. unfold parse_keywords in Hi.
  apply list_elem_of_filter in Hi as [Hne Hk].
  apply list_elem_of_fmap in Hk as (piece & -> & Hp).
  split_and!; [done|apply strip_idempotent| |by exists piece].
  intros a b Hab.
  assert (all_chars not_comma (Py.strip piece) = true) as Hall.
  { unfold Py.strip. apply all_chars_lstrip, all_chars_rstrip.
    by apply (split_commas_pieces keywords_input). }
  rewrite Hab in Hall. by apply all_chars_occurrence in Hall.
Qed.

Lemma filter_nonempty_nil (l : list string) :
  filter (λ k, k ≠ "") l = [] ↔ Forall (λ k, k = "") l.
Proof.
  induction l as [|x l IH]; [done|]. rewrite filter_cons, Forall_cons.
  destruct (decide (x ≠ "")) as [Hx|Hx]; [by split; [|intros []]|].
  apply dec_stable in Hx. rewrite IH. tauto.
Qed.

Lemma split_commas_blank s :
  Forall (λ piece, all_chars Py.isspace piece = true) (split_commas s)
  ↔ all_chars blank_or_comma s = true.
Proof.
  induction s as [|c s IH]; [by split; [|repeat constructor]|].
  rewrite split_commas_cons. simpl. rewrite andb_true_iff, <- IH.
  unfold blank_or_comma. pose proof (split_commas_nonempty s) as Hs.
  case_bool_decide as Hc.
  - rewrite orb_true_r, Forall_cons. simpl. tauto.
  - rewrite orb_false_r. destruct (split_commas s) as [|p ps]; [done|].
    rewrite !Forall_cons. simpl. rewrite andb_true_iff. tauto.
Qed.

(** X4. The list of keywords is empty exactly when the field holds
    nothing but commas and white space; such a field, when it is not
    empty, passes the test of line 264 all the same. *)
Theorem parse_keywords_empty (url_input keywords_input : string) :
  (parse_keywords keywords_input = []
   ↔ all_chars blank_or_comma keywords_input = true)
  ∧ (url_input ≠ "" → keywords_input ≠ "" →
     input_missing url_input keywords_input = false).
Proof.
  split.
  - unfold parse_keywords.
    rewrite filter_nonempty_nil, Forall_fmap, <- split_commas_blank.
    apply Forall_proper; [|done]. intros piece. simpl. apply strip_blank.
  - intros Hu Hk. unfold input_missing.
    by rewrite !bool_decide_eq_false_2.
Qed.

Lemma split_commas_app a b :
  split_commas (a +:+ "," +:+ b) = split_commas a ++ split_commas b.
Proof.
  induction a as [|c a IH].
  - change ("" +:+ "," +:+ b) with (String ","%char b).
    rewrite split_commas_cons. by rewrite bool_decide_eq_true_2.
  - rewrite app_cons, !split_commas_cons, IH. case_bool_decide; [done|].
    pose proof (split_commas_nonempty a). by destruct (split_commas a).
Qed.

(** X5. A comma joins two fields as the lists of their keywords are
    joined. *)
Theorem parse_keywords_comma (a b : string) :
  parse_keywords (a +:+ "," +:+ b) = parse_keywords a ++ parse_keywords b.
Proof.
  unfold parse_keywords. by rewrite split_commas_app, fmap_app, filter_app.
Qed.

(** ** More on the classifier *)

Lemma length_substring n m s : (String.length (String.substring n m s) <= m)%nat.
Proof.
  revert n m. induction s as [|c s IH]; intros [|n] [|m]; simpl; try lia.
  - specialize (IH 0%nat m). lia.
  - apply IH.
  - apply IH.
Qed.

Lemma text_block_length kw element ups :
  Py.len (text_block kw element ups) ≤ 300.
Proof.
  unfold text_block.
  set (T := clean_text (get_text " " (climb element ups))).
  destruct (300 <? Py.len T) eqn:Hlong; [|by apply Z.ltb_ge in Hlong].
  apply Z.ltb_lt in Hlong.
  set (i := Py.find (Py.lower T) (Py.lower kw)).
  assert (-1 ≤ i) as Hi.
  { unfold i, Py.find. destruct (String.index 0 _ _); lia. }
  rewrite !len_app. change (Py.len "...") with 3.
  assert (Py.len (Py.slice T (Z.max 0 (i - 50)) (Z.min (Py.len T) (i + 150)))
          ≤ 200); [|lia].
  unfold Py.slice, Py.clip.
  rewrite !(proj2 (Z.ltb_ge _ _)) by lia.
  unfold Py.len at 1.
  pose proof (length_substring
    (Z.to_nat (Z.min (Z.max 0 (i - 50)) (Py.len T)))
    (Z.to_nat (Z.min (Z.min (Py.len T) (i + 150)) (Py.len T)
               - Z.min (Z.max 0 (i - 50)) (Py.len T))) T).
  lia.
Qed.

(** X6. A record labelled Text Block never holds more than 300
    characters, whether or not the keyword was found in the text of the
    container. *)
Theorem text_block_bounded (soup : list node) (keywords : list string) :
  Forall (λ r, type r = TextBlock → 3 ≤ Py.len (context r) ≤ 300)
    (get_structured_data soup keywords).
Proof.
  apply Forall_forall. intros r Hr Ht.
  rewrite get_structured_data_bind in Hr.
  apply list_elem_of_bind in Hr as (kw & Hr & _).
  apply emitted_origin in Hr as (m & _ & -> & Hok & _). simpl in *.
  split; [by apply rejected_false in Hok as [? _]|].
  rewrite (classify_text_block _ _ _ Ht). apply text_block_length.
Qed.

(** X7. The records of a list of keywords are those of its first part
    followed by those of its second part; every record carries one of
    the keywords of the list, and no address yet. *)
Theorem get_structured_data_app (soup : list node) (kws1 kws2 : list string) :
  get_structured_data soup (kws1 ++ kws2)
    = get_structured_data soup kws1 ++ get_structured_data soup kws2
  ∧ Forall (λ r, keyword r ∈ kws1 ++ kws2 ∧ url r = None)
      (get_structured_data soup (kws1 ++ kws2)).
Proof.
  split.
  - by rewrite !get_structured_data_bind, bind_app.
  - apply Forall_forall. intros r Hr. rewrite get_structured_data_bind in Hr.
    apply list_elem_of_bind in Hr as (kw & Hr & Hkw).
    by apply emitted_origin in Hr as (m & _ & -> & _).
Qed.

Lemma lower_idempotent s : Py.lower (Py.lower s) = Py.lower s.
Proof.
  induction s as [|c s IH]; [done|]. simpl. rewrite IH. f_equal.
  by destruct c as [[] [] [] [] [] [] [] []].
Qed.




(** X17. When no keyword is listed twice, no two records of a page
    agree in both keyword and context. *)
Theorem records_unique (soup : list node) (keywords : list string) :
  NoDup keywords →
  NoDup ((λ r, (keyword r, context r)) <$> get_structured_data soup keywords).
Proof.
  rewrite get_structured_data_bind.
  induction 1 as [|kw kws Hkw _ IH]; [constructor|].
  rewrite bind_cons, fmap_app. apply NoDup_app. split_and!; [|  |done].
  - apply (NoDup_fmap_1 snd). rewrite <- list_fmap_compose.
    apply emitted_NoDup.
  - intros [k c] (r & [= -> ->] & Hr)%list_elem_of_fmap
      (r' & [= Hk _] & Hr')%list_elem_of_fmap.
    apply emitted_keyword in Hr.
    apply list_elem_of_bind in Hr' as (kw' & Hr' & Hin).
    apply emitted_keyword in Hr'. congruence.
Qed.

(** ** More on the link filter *)

Section MoreLinks.
Context (urljoin : string → string → option string).
Context (netloc : string → option string).

Local Abbreviation visit_link' := (visit_link urljoin netloc).
Local Abbreviation find_relevant_links' := (find_relevant_links urljoin netloc).

Lemma mentions_true keywords text href :
  mentions keywords text href = true ↔
  ∃ kw, kw ∈ keywords
        ∧ (Py.contains (Py.lower kw) text = true
           ∨ Py.contains (Py.lower kw) (Py.lower href) = true).
Proof.
  induction keywords as [|kw kws IH]; simpl.
  { split; [done|]. by intros (? & ?%elem_of_nil & _). }
  destruct (Py.contains (Py.lower kw) text || Py.contains (Py.lower kw) (Py.lower href))
    eqn:Hk.
  - split; [|done]. intros _. exists kw. split; [by left|].
    by apply orb_true_iff in Hk.
  - rewrite IH. apply orb_false_iff in Hk as [Hk1 Hk2]. split.
    + intros (k & ? & ?). exists k. split; [by right|done].
    + intros (k & [->|?]%elem_of_cons & Hc); [|by exists k].
      destruct Hc; congruence.
Qed.

Lemma visit_link_grows base_url domain keywords links link links' :
  visit_link' base_url domain keywords links link = Some links' →
  links ⊆ links'.
Proof.
  unfold visit_link. intros H.
  destruct (get_attr "href" (attrs link)) as [href|]; [|done]. simpl in H.
  destruct (urljoin base_url href) as [full_url|]; [|done]. simpl in H.
  destruct (netloc full_url) as [there|]; [|done]. simpl in H.
  case_bool_decide; [by injection H as <-|].
  destruct (mentions keywords _ href); injection H as <-; set_solver.
Qed.

Lemma foldl_links_grows base_url domain keywords (l : list element) links links' :
  foldl (λ acc link, acc ≫= λ relevant_links,
           visit_link' base_url domain keywords relevant_links link)
    (Some links) l = Some links' →
  links ⊆ links'.
Proof.
  revert links. induction l as [|link l IH]; intros links; simpl.
  { by intros [= <-]. }
  destruct (visit_link' base_url domain keywords links link) as [links1|] eqn:Hv.
  2:{ by rewrite foldl_links_None. }
  intros H. apply visit_link_grows in Hv. apply IH in H. set_solver.
Qed.

Lemma foldl_links_complete base_url domain keywords (l : list element)
    links links' link href u :
  foldl (λ acc link, acc ≫= λ relevant_links,
           visit_link' base_url domain keywords relevant_links link)
    (Some links) l = Some links' →
  link ∈ l →
  get_attr "href" (attrs link) = Some href →
  urljoin base_url href = Some u →
  netloc u = Some domain →
  mentions keywords (Py.lower (get_text_strip " " link)) href = true →
  u ∈ links'.
Proof.
  intros H Hin Hh Hj Hn Hm. revert links H.
  induction l as [|link' l IH]; intros links H.
  { by apply elem_of_nil in Hin. }
  simpl in H.
  destruct (visit_link' base_url domain keywords links link') as [links1|] eqn:Hv.
  2:{ by rewrite foldl_links_None in H. }
  apply elem_of_cons in Hin as [<-|Hin]; [|by apply (IH Hin links1)].
  apply foldl_links_grows in H. apply H.
  unfold visit_link in Hv. rewrite Hh in Hv. simpl in Hv.
  rewrite Hj in Hv. simpl in Hv. rewrite Hn in Hv. simpl in Hv.
  rewrite bool_decide_eq_false_2 in Hv by (by intros ?).
  rewrite Hm in Hv. injection Hv as <-. set_solver.
Qed.

(** X9. The link filter misses no link: when it returns, the address of
    every anchor on the seed's network location whose text or href
    holds one of the keywords, without regard to case, is in the
    returned set. *)
Theorem relevant_link_found (base_url : string) (soup : list node)
    (keywords : list string) (links : gset string) (i j : nat)
    (link : element) (href u kw : string) :
  find_relevant_links' base_url soup keywords = Some links →
  anchors soup !! i = Some link →
  get_attr "href" (attrs link) = Some href →
  urljoin base_url href = Some u →
  netloc u = netloc base_url →
  keywords !! j = Some kw →
  Py.contains (Py.lower kw) (Py.lower (get_text_strip " " link))
    || Py.contains (Py.lower kw) (Py.lower href) = true →
  u ∈ links.
Proof.
  unfold find_relevant_links. intros H Hl Hh Hj Hn Hk Hc.
  destruct (netloc base_url) as [domain|] eqn:Hd; [|done]. simpl in H.
  apply (foldl_links_complete _ _ _ _ _ _ link href u H);
    [by eapply list_elem_of_lookup_2|done..|].
  apply mentions_true. exists kw. split; [by eapply list_elem_of_lookup_2|].
  by apply orb_true_iff.
Qed.

Lemma foldl_links_raise base_url domain keywords (l : list element)
    acc link href :
  link ∈ l →
  get_attr "href" (attrs link) = Some href →
  urljoin base_url href = None →
  foldl (λ acc link, acc ≫= λ relevant_links,
           visit_link' base_url domain keywords relevant_links link) acc l
  = None.
Proof.
  intros Hin Hh Hj. revert acc. induction l as [|link' l IH]; intros acc.
  { by apply elem_of_nil in Hin. }
  simpl. apply elem_of_cons in Hin as [<-|Hin]; [|by apply IH].
  destruct acc as [links|]; simpl; [|apply foldl_links_None].
  unfold visit_link. rewrite Hh. simpl. rewrite Hj. simpl.
  apply foldl_links_None.
Qed.

Lemma find_relevant_links_raise base_url soup keywords link href :
  link ∈ anchors soup →
  get_attr "href" (attrs link) = Some href →
  urljoin base_url href = None →
  find_relevant_links' base_url soup keywords = None.
Proof.
  intros Hin Hh Hj. unfold find_relevant_links.
  destruct (netloc base_url) as [domain|]; [|done]. simpl.
  by eapply foldl_links_raise.
Qed.

Lemma links_on_domain base_url soup keywords links u :
  find_relevant_links' base_url soup keywords = Some links →
  u ∈ links → netloc u = netloc base_url.
Proof.
  unfold find_relevant_links. intros H Hu.
  destruct (netloc base_url) as [domain|] eqn:Hd; [|done]. simpl in H.
  destruct (foldl_links_Some _ _ _ _ _ _ _ _ H u Hu) as [?|(_ & ? & _)];
    [set_solver|done].
Qed.

End MoreLinks.

(** ** More on the orchestrator *)

Lemma export_rows_cons timestamp r l :
  export_rows timestamp (r :: l)
  = row ← export_row timestamp r;
    rows ← export_rows timestamp l;
    Some (row :: rows).
Proof. done. Qed.


Section MoreOrchestrator.
Context (urljoin : string → string → option string).
Context (netloc : string → option string).
Context (requests_get : string → Z → option response).
Context (BeautifulSoup : string → option (list node)).
Context (set_order : gset string → list string).

Local Abbreviation sub_page' := (sub_page requests_get BeautifulSoup).
Local Abbreviation visit_page' := (visit_page requests_get BeautifulSoup).
Local Abbreviation phase1' :=
  (phase1 urljoin netloc requests_get BeautifulSoup).
Local Abbreviation scrape_logic' :=
  (scrape_logic urljoin netloc requests_get BeautifulSoup set_order).

Lemma foldl_visit_page_keeps (P : run → Prop) keywords_list (l : list string) r :
  (∀ r link, P r → P (visit_page' keywords_list r link)) →
  P r → P (foldl (visit_page' keywords_list) r l).
Proof.
  intros Hstep. revert r. induction l as [|link l IH]; intros r Hr; [done|].
  simpl. by apply IH, Hstep.
Qed.

(** A property of the state that Phase 1 establishes and every turn of
    Phase 2 keeps holds of what the run returns. *)
Lemma scrape_logic_keeps (P : list item → list event → Prop)
    base_url keywords_list :
  P [] [InfoPhase1 base_url; Get base_url 15; ErrorMessage] →
  (∀ home_data child_links,
     phase1' base_url keywords_list = Some (home_data, child_links) →
     P home_data [InfoPhase1 base_url; Get base_url 15; WarningNoLinks]
     ∧ P home_data [InfoPhase1 base_url; Get base_url 15;
                    InfoPhase2 (size child_links)]) →
  (∀ r link, P (all_data r) (trace r) →
     P (all_data (visit_page' keywords_list r link))
       (trace (visit_page' keywords_list r link))) →
  P (scrape_logic' base_url keywords_list).1
    (scrape_logic' base_url keywords_list).2.
Proof.
  intros Hfail Hhome Hstep. unfold scrape_logic.
  destruct (phase1' base_url keywords_list) as [[home_data child_links]|] eqn:Hp;
    [|done].
  destruct (Hhome _ _ eq_refl) as [H1 H2].
  case_bool_decide; [|done]. simpl.
  by apply (foldl_visit_page_keeps (λ r, P (all_data r) (trace r))).
Qed.

(** X10. The link filter runs inside the [try] block of Phase 1: when
    the seed page is fetched and parsed but [urljoin] raises on the href
    of one of its anchors, the run returns no record at all, the records
    of the seed page included, and requests nothing else. *)
Theorem bad_href_aborts (base_url : string) (keywords_list : list string)
    (response : response) (soup : list node) (i : nat) (link : element)
    (href : string) :
  requests_get base_url 15 = Some response →
  BeautifulSoup (body response) = Some soup →
  anchors (decompose_all noise_home soup) !! i = Some link →
  get_attr "href" (attrs link) = Some href →
  urljoin base_url href = None →
  scrape_logic' base_url keywords_list
  = ([], [InfoPhase1 base_url; Get base_url 15; ErrorMessage]).
Proof.
  intros Hget Hsoup Hl Hh Hj. unfold scrape_logic, phase1.
  rewrite Hget. simpl. rewrite Hsoup. simpl.
  rewrite (find_relevant_links_raise urljoin netloc base_url _ keywords_list
             link href); [done| |done..].
  by eapply list_elem_of_lookup_2.
Qed.

Lemma records_have_address (base_url : string) (keywords_list : list string) :
  Forall (λ r, ∃ address, url r = Some address
                 ∧ address ∈ requested (scrape_logic' base_url keywords_list).2)
    (scrape_logic' base_url keywords_list).1.
Proof.
  apply (scrape_logic_keeps
    (λ data happened,
       Forall (λ r, ∃ address, url r = Some address
                               ∧ address ∈ requested happened) data)).
  - constructor.
  - intros home_data child_links Hp.
    apply phase1_Some in Hp as (response & soup & _ & _ & -> & _).
    split; apply Forall_forall; intros r (it & -> & _)%list_elem_of_fmap;
      exists base_url; (split; [done|]); simpl; by left.
  - intros r link Hr. unfold visit_page. case_bool_decide; [done|]. simpl.
    rewrite requested_app. apply Forall_app. split.
    + eapply Forall_impl; [done|]. intros x (a & ? & ?). exists a.
      split; [done|]. apply elem_of_app. by left.
    + apply Forall_forall. intros x Hx. exists link.
      destruct (sub_page' link keywords_list) as [recs|] eqn:Hs;
        [|by apply elem_of_nil in Hx].
      split; [by eapply sub_page_url|].
      apply elem_of_app. right. simpl. by left.
Qed.

(** X11. Every record that a run returns carries an address, and the
    address is one that the run has requested. *)
Theorem records_attributed (base_url : string) (keywords_list : list string) :
  Forall (λ r, ∃ address, url r = Some address
                 ∧ address ∈ requested (scrape_logic' base_url keywords_list).2)
    (scrape_logic' base_url keywords_list).1.
Proof. apply records_have_address. Qed.


(** X13. No address is requested twice in a run, the seed included, and
    every requested address is the seed or lies on the network location
    of the seed. The loop is taken to meet each member of the set of
    links once, in any order. *)
Theorem requests_once_and_on_domain (base_url : string)
    (keywords_list : list string) :
  (∀ links, set_order links ≡ₚ elements links) →
  NoDup (requested (scrape_logic' base_url keywords_list).2)
  ∧ ∀ address, address ∈ requested (scrape_logic' base_url keywords_list).2 →
      address = base_url ∨ netloc address = netloc base_url.
Proof.
  intros Hperm.
  destruct (phase1' base_url keywords_list) as [[home_data child_links]|] eqn:Hp.
  2:{ unfold scrape_logic. rewrite Hp. simpl. split.
      - apply NoDup_singleton.
      - intros a Ha. apply list_elem_of_singleton in Ha. by left. }
  rewrite (scrape_logic_success _ _ _ _ _ _ _ _ _ (Hperm child_links) Hp).
  cbn [snd]. rewrite !requested_app, requested_page_events.
  assert (requested (if bool_decide (child_links ≠ ∅)
                     then [InfoPhase2 (size child_links)] else [WarningNoLinks])
          = []) as -> by by case_bool_decide.
  simpl. split.
  - apply NoDup_cons. split.
    + intros [Hn _]%list_elem_of_filter. apply Hn. by apply elem_of_singleton.
    + apply NoDup_filter. rewrite (Hperm child_links). apply NoDup_elements.
  - intros a [->|[_ Ha]%list_elem_of_filter]%elem_of_cons; [by left|]. right.
    rewrite (Hperm child_links) in Ha. apply elem_of_elements in Ha.
    apply phase1_Some in Hp as (response & soup & _ & _ & _ & Hl).
    by eapply links_on_domain.
Qed.

Lemma bind_page_records keywords_list base_url (l : list string) :
  l ≫= page_records requests_get BeautifulSoup keywords_list {[base_url]}
  = filter (λ link, link ≠ base_url) l
      ≫= λ link, default [] (sub_page' link keywords_list).
Proof.
  induction l as [|link l IH]; [done|].
  rewrite bind_cons, filter_cons, IH. unfold page_records at 1.
  destruct (decide (link ≠ base_url)) as [Hne|Heq].
  - rewrite bool_decide_eq_false_2; [done|]. by intros ?%elem_of_singleton.
  - apply dec_stable in Heq. subst link.
    rewrite bool_decide_eq_true_2; [done|]. by apply elem_of_singleton.
Qed.

(** X16. When Phase 1 succeeds, the returned list is laid out page by
    page: first the records of the seed page, in the order of the
    classifier, then, for every candidate link other than the seed in
    the order of the loop, the records of its page, or nothing when the
    page could not be fetched or parsed. The loop is taken to meet each
    member of the set of links once. *)
Theorem run_layout (base_url : string) (keywords_list : list string)
    (response : response) (soup : list node) (child_links : gset string) :
  (∀ links, set_order links ≡ₚ elements links) →
  requests_get base_url 15 = Some response →
  BeautifulSoup (body response) = Some soup →
  find_relevant_links urljoin netloc base_url
    (decompose_all noise_home soup) keywords_list = Some child_links →
  (scrape_logic' base_url keywords_list).1
  = (set_url base_url
       <$> get_structured_data (decompose_all noise_home soup) keywords_list)
    ++ (filter (λ link, link ≠ base_url) (set_order child_links)
          ≫= λ link, default [] (sub_page' link keywords_list)).
Proof.
  intros Hperm Hget Hsoup Hlinks.
  rewrite (scrape_logic_success urljoin netloc BeautifulSoup set_order
             requests_get base_url keywords_list
             (set_url base_url <$> get_structured_data
                (decompose_all noise_home soup) keywords_list) child_links).
  - cbn [fst]. by rewrite bind_page_records.
  - apply Hperm.
  - apply phase1_Some. by exists response, soup.
Qed.

(** X14. The export never fails on a missing address: the rows of what
    a run returns can always be built, one row of five cells for each
    record, in the same order, with the same time stamp in the last
    cell. *)
Theorem export_rows_of_run (base_url : string) (keywords_list : list string)
    (timestamp : string) :
  ∃ rows,
    export_rows timestamp (scrape_logic' base_url keywords_list).1 = Some rows
    ∧ Forall2 (λ r row, ∃ address,
                 url r = Some address
                 ∧ row = [address; keyword r; context r; type_name (type r);
                          timestamp])
        (scrape_logic' base_url keywords_list).1 rows.
Proof.
  pose proof (records_have_address base_url keywords_list) as Hall.
  induction Hall as [|r l (a & Ha & _) _ (rows & Hrows & Hall)].
  { exists []. split; [done|constructor]. }
  exists ([a; keyword r; context r; type_name (type r); timestamp] :: rows).
  split.
  - rewrite export_rows_cons, Hrows. unfold export_row. by rewrite Ha.
  - constructor; [by exists a|done].
Qed.

End MoreOrchestrator.

(** ** The removal of the noise tags *)

Lemma fmap_filter_factor {A B} (f : A → B) (P : B → Prop) (Q : A → Prop)
    `{!∀ y, Decision (P y), !∀ x, Decision (Q x)} (l : list A) :
  (∀ x, Q x ↔ P (f x)) → f <$> filter Q l = filter P (f <$> l).
Proof.
  intros HPQ. induction l as [|x l IH]; [done|].
  rewrite fmap_cons, !filter_cons.
  destruct (decide (Q x)) as [Hq|Hq], (decide (P (f x))) as [Hp|Hp].
  - by rewrite fmap_cons, IH.
  - by apply HPQ in Hq.
  - by apply HPQ in Hp.
  - done.
Qed.

Lemma trail_each_child (cs : list node) (ups : list element) :
  Forall (λ c, ∀ ups next,
            trail <$> strings_of ups c next = trails (name <$> ups) c) cs →
  trail <$> each_child (strings_of ups) cs
  = flat_map (trails (name <$> ups)) cs.
Proof.
  induction 1 as [|c l Hc _ IH]; [done|]. simpl.
  by rewrite fmap_app, Hc, IH.
Qed.

Lemma trail_strings_of n :
  ∀ ups next, trail <$> strings_of ups n next = trails (name <$> ups) n.
Proof.
  induction n as [s|nm a cs IH] using node_nested_ind; intros ups next; [done|].
  simpl. by rewrite (trail_each_child cs _ IH).
Qed.

Lemma trail_soup (soup : list node) :
  trail <$> each_child (strings_of []) soup = flat_map (trails []) soup.
Proof.
  apply (trail_each_child soup []), Forall_forall.
  intros c _. apply trail_strings_of.
Qed.

Lemma trails_suffix n :
  ∀ ups t, t ∈ trails ups n → ∃ inner, t.2 = inner ++ ups.
Proof.
  induction n as [s|nm a cs IH] using node_nested_ind; intros ups t; simpl.
  - intros Ht. apply list_elem_of_singleton in Ht. subst t. by exists [].
  - intros Ht. apply list_elem_of_In, in_flat_map in Ht as (c & Hc & Ht).
    apply list_elem_of_In in Hc, Ht. rewrite Forall_forall in IH.
    destruct (IH c Hc _ _ Ht) as [inner Hi]. exists (inner ++ [nm]).
    by rewrite Hi, <- app_assoc.
Qed.

Lemma filter_none {A} (P : A → Prop) `{!∀ x, Decision (P x)} (l : list A) :
  (∀ x, x ∈ l → ¬ P x) → filter P l = [].
Proof.
  induction l as [|x l IH]; intros Hno; [done|].
  rewrite filter_cons_False; [|apply Hno; by left].
  apply IH. intros y ?. apply Hno. by right.
Qed.

Lemma trails_decompose names n :
  ∀ ups, Forall (λ x, x ∉ names) ups →
    flat_map (trails ups) (decompose names n)
    = filter (λ t, Forall (λ x, x ∉ names) t.2) (trails ups n).
Proof.
  induction n as [s|nm a cs IH] using node_nested_ind; intros ups Hups; simpl.
  { by rewrite filter_cons_True. }
  case_bool_decide as Hnm; simpl.
  - symmetry. apply filter_none. intros t Ht Hall.
    apply list_elem_of_In, in_flat_map in Ht as (c & _ & Ht).
    apply list_elem_of_In, trails_suffix in Ht as [inner Hi].
    rewrite Hi in Hall. apply Forall_app in Hall as [_ Hall].
    by apply Forall_cons in Hall as [? _].
  - rewrite app_nil_r.
    assert (Forall (λ x, x ∉ names) (nm :: ups)) as Hups' by by constructor.
    clear Hnm. induction IH as [|c l Hc _ IHl]; [done|]. simpl.
    by rewrite flat_map_app, filter_app, (Hc _ Hups'), IHl.
Qed.

Lemma trails_decompose_all names (soup : list node) :
  flat_map (trails []) (decompose_all names soup)
  = filter (λ t, Forall (λ x, x ∉ names) t.2) (flat_map (trails []) soup).
Proof.
  unfold decompose_all. induction soup as [|c l IH]; [done|]. simpl.
  rewrite flat_map_app, filter_app, IH. f_equal.
  by apply trails_decompose.
Qed.

(** X15. The removal of the noise tags is exact: the matches of a
    keyword on the cleaned tree are the matches on the tree as parsed
    that lie inside none of the removed tags, in the same order, each
    with the same text and the same names of the tags around it. *)
Theorem decompose_all_exact (names : list string) (soup : list node)
    (kw : string) :
  trail <$> find_all_string (decompose_all names soup) kw
  = trail <$> filter (λ m, Forall (λ e, name e ∉ names) (parents m))
                (find_all_string soup kw).
Proof.
  unfold find_all_string.
  rewrite (fmap_filter_factor trail
             (λ t, Is_true (Py.search_ignorecase kw t.1))
             (λ m, Is_true (Py.search_ignorecase kw (text m)))) by done.
  rewrite (fmap_filter_factor trail
             (λ t, Forall (λ x, x ∉ names) t.2)
             (λ m, Forall (λ e, name e ∉ names) (parents m))).
  2:{ intros m. simpl. by rewrite Forall_fmap. }
  rewrite (fmap_filter_factor trail
             (λ t, Is_true (Py.search_ignorecase kw t.1))
             (λ m, Is_true (Py.search_ignorecase kw (text m)))) by done.
  rewrite !trail_soup, trails_decompose_all, !list_filter_filter.
  apply list_filter_iff. intros t. tauto.
Qed.

(** ** The further statements on concrete inputs *)

Section MoreInstances.
Import Examples.

(** The third keyword of a field with blanks and an empty piece. *)
Lemma parse_keywords_entries_witness :
  Py.strip "Interest  rate" = "Interest  rate".
Proof.
  apply (parse_keywords_entries " Millennia ,  Fees,, Interest  rate ," 2
           "Interest  rate").
  by vm_compute.
Defined.


(** The first anchor of the home page holds the keyword and lies on the
    site. *)
Lemma relevant_link_found_witness :
  "http://bank.example/fees"
    ∈ ({["http://bank.example/gone"; "http://bank.example/cards";
         "http://bank.example/fees"]} : gset string).
Proof.
  apply (relevant_link_found urljoin netloc seed home_page ["fee"]
           {["http://bank.example/gone"; "http://bank.example/cards";
             "http://bank.example/fees"]} 0 0
           (Element "a" [("href", "http://bank.example/fees")]
              [NavigableString "Fees"]
              [Tag "a" [("href", "http://bank.example/gone")]
                 [NavigableString "Old fee list"];
               Tag "a" [("href", "http://bank.example/cards")]
                 [NavigableString "Card fee"];
               Tag "a" [("href", "http://other.example/fees")]
                 [NavigableString "Fees elsewhere"];
               Tag "noscript" [] [Tag "p" [] [NavigableString "hidden fee"]]])
           "http://bank.example/fees" "http://bank.example/fees" "fee");
    by vm_compute.
Defined.

(** The home page is fetched and holds a record, and the run returns
    nothing. *)
Lemma bad_href_aborts_witness :
  scrape_logic MoreExamples.urljoin netloc MoreExamples.site
    MoreExamples.parse elements seed ["fee"]
  = ([], [InfoPhase1 seed; Get seed 15; ErrorMessage])
  ∧ get_structured_data (decompose_all noise_home MoreExamples.broken_page)
      ["fee"] ≠ [].
Proof.
  split; [|by vm_compute].
  apply (bad_href_aborts MoreExamples.urljoin netloc MoreExamples.site
           MoreExamples.parse elements seed ["fee"]
           (Response 200 "broken") MoreExamples.broken_page 0
           (Element "a" [("href", "http://[bank.example/fees")]
              [NavigableString "Fees"] [])
           "http://[bank.example/fees"); by vm_compute.
Defined.

(** The four requests of the run over the example site. *)
Lemma requests_once_and_on_domain_witness :
  NoDup (requested (scrape_logic urljoin netloc (site 200) parse elements
                      seed ["fee"]).2).
Proof.
  apply (requests_once_and_on_domain urljoin netloc (site 200) parse elements
           seed ["fee"]).
  intros links. reflexivity.
Defined.

(** The records of the example site, page by page. *)
Lemma run_layout_witness :
  (scrape_logic urljoin netloc (site 200) parse elements seed ["fee"]).1
  = (set_url seed
       <$> get_structured_data (decompose_all noise_home home_page) ["fee"])
    ++ (filter (λ link, link ≠ seed)
          (elements ({["http://bank.example/gone"; "http://bank.example/cards";
                       "http://bank.example/fees"]} : gset string))
          ≫= λ link, default []
                (sub_page (site 200) parse link ["fee"])).
Proof.
  apply (run_layout urljoin netloc (site 200) parse elements seed ["fee"]
           (Response 200 "home") home_page).
  - intros links. reflexivity.
  - by vm_compute.
  - by vm_compute.
  - by vm_compute.
Defined.

(** The two keywords of the example record the same text once each. *)
Lemma records_unique_witness :
  NoDup ((λ r, (keyword r, context r))
           <$> get_structured_data two_nodes ["fee"; "annual"]).
Proof.
  apply (records_unique two_nodes ["fee"; "annual"]).
  apply NoDup_cons. split; [by vm_compute; intros ?%list_elem_of_singleton|].
  apply NoDup_singleton.
Defined.

End MoreInstances.
